(** * pdf-to-svg-crop: the selection geometry and the SVG rewrite passes

    A shallow embedding of [src/main.py] (class [PdfToSvgCropper]).

    - Python [str] values are lists of characters; a character is a code
      point below 256 ([ascii]).  The character classes of [re] and of
      [str.split]/[str.strip]/[int] are the ones CPython uses on that range.
    - Python [float] is IEEE binary64: Rocq's primitive [float], with the
      same rounding (to nearest, ties to even) on every operation.
    - Python [int] is [Z].
    - A raised exception is a value of [result]. *)

From Stdlib Require Import List Ascii String ZArith Bool Lia Floats Uint63.
Import ListNotations.

Set Warnings "-inexact-float".
Set Implicit Arguments.

Local Open Scope bool_scope.
Local Open Scope list_scope.

(** ** Exceptions *)

Inductive exn : Type :=
| RuntimeError (msg : string)
| ValueError
| OverflowError
| ReError          (* [re.error] *)
| IndexError.

Inductive result (A : Type) : Type :=
| Ok (a : A)
| Raise (e : exn).

Arguments Ok {A} a.
Arguments Raise {A} e.

Definition bind {A B} (r : result A) (k : A -> result B) : result B :=
  match r with
  | Ok a => k a
  | Raise e => Raise e
  end.

Notation "x <- c ;; k" := (bind c (fun x => k))
  (at level 61, c at next level, right associativity).

(** ** Strings *)

Definition str : Type := list ascii.

Definition lit (s : string) : str := list_ascii_of_string s.

Definition nl : ascii := ascii_of_nat 10.

(** [str.isspace] on code points below 256: TAB..CR, FS..US, space, NEL
    and NBSP.  The class [\s] of [re] is the same set. *)
Definition is_space (c : ascii) : bool :=
  let n := nat_of_ascii c in
  ((9 <=? n) && (n <=? 13)) || ((28 <=? n) && (n <=? 32))
  || (n =? 133) || (n =? 160).

(** [\d]: the decimal digits below 256 are '0'..'9'. *)
Definition is_digit (c : ascii) : bool :=
  let n := nat_of_ascii c in (48 <=? n) && (n <=? 57).

Definition is_hex (c : ascii) : bool :=
  let n := nat_of_ascii c in
  ((48 <=? n) && (n <=? 57)) || ((97 <=? n) && (n <=? 102))
  || ((65 <=? n) && (n <=? 70)).

Fixpoint starts_with (p s : str) : bool :=
  match p, s with
  | [], _ => true
  | _ :: _, [] => false
  | a :: p', b :: s' => Ascii.eqb a b && starts_with p' s'
  end.

(** [sub in s] *)
Fixpoint contains (sub s : str) : bool :=
  starts_with sub s ||
  match s with
  | [] => false
  | _ :: s' => contains sub s'
  end.

(** [s.split(sep)] for a one-character separator: never empty. *)
Fixpoint split_on (sep : ascii) (s : str) : list str :=
  match s with
  | [] => [[]]
  | c :: s' =>
      if Ascii.eqb c sep then [] :: split_on sep s'
      else match split_on sep s' with
           | [] => [[c]]
           | w :: ws => (c :: w) :: ws
           end
  end.

(** [sep.join(parts)] for a one-character separator. *)
Fixpoint join_with (sep : ascii) (parts : list str) : str :=
  match parts with
  | [] => []
  | [p] => p
  | p :: ps => p ++ sep :: join_with sep ps
  end.

Fixpoint lstrip (s : str) : str :=
  match s with
  | c :: s' => if is_space c then lstrip s' else s
  | [] => []
  end.

Definition rstrip (s : str) : str := rev (lstrip (rev s)).

(** [s.strip()] *)
Definition strip (s : str) : str := rstrip (lstrip s).

(** [s.split()]: the maximal runs of non-space characters. *)
Fixpoint split_ws_aux (cur : str) (s : str) : list str :=
  match s with
  | [] => match cur with [] => [] | _ => [rev cur] end
  | c :: s' =>
      if is_space c
      then match cur with
           | [] => split_ws_aux [] s'
           | _ => rev cur :: split_ws_aux [] s'
           end
      else split_ws_aux (c :: cur) s'
  end.

Definition split_ws (s : str) : list str := split_ws_aux [] s.

(** ** Integers and text *)

Definition digit_char (d : Z) : ascii := ascii_of_nat (48 + Z.to_nat d).

Definition digit_val (c : ascii) : Z := Z.of_nat (nat_of_ascii c) - 48.

Fixpoint dec_digits (fuel : nat) (n : Z) (acc : str) : str :=
  match fuel with
  | O => acc
  | S f =>
      let acc' := digit_char (n mod 10) :: acc in
      if (n <? 10)%Z then acc' else dec_digits f (n / 10) acc'
  end.

Definition dec_nonneg (n : Z) : str :=
  dec_digits (S (Z.to_nat (Z.log2 n))) n [].

(** [str(n)], as an f-string field [{n}] prints an [int] (of at most 4300
    digits: the program prints page numbers, and levels of grey that come
    from a float). *)
Definition dec (n : Z) : str :=
  if (n <? 0)%Z then "-"%char :: dec_nonneg (- n) else dec_nonneg n.

(** The digits of an [int] literal: underscores are accepted between
    digits, one at a time.  [seen] tells that the previous character was a
    digit. *)
Fixpoint parse_digits (acc : Z) (seen : bool) (s : str) : option Z :=
  match s with
  | [] => if seen then Some acc else None
  | c :: s' =>
      if is_digit c then parse_digits (10 * acc + digit_val c)%Z true s'
      else if Ascii.eqb c "_" && seen
           then match s' with
                | d :: _ => if is_digit d then parse_digits acc false s'
                            else None
                | [] => None
                end
           else None
  end.

(** The white space [int] skips around a number: TAB..CR, space, NEL and
    NBSP; unlike [str.strip], not FS..US. *)
Definition is_int_space (c : ascii) : bool :=
  let n := nat_of_ascii c in
  ((9 <=? n) && (n <=? 13)) || (n =? 32) || (n =? 133) || (n =? 160).

Fixpoint lstrip_int (s : str) : str :=
  match s with
  | c :: s' => if is_int_space c then lstrip_int s' else s
  | [] => []
  end.

Definition strip_int (s : str) : str :=
  rev (lstrip_int (rev (lstrip_int s))).

(** [sys.int_info.default_max_str_digits]: a text of more digits is not
    converted. *)
Definition max_str_digits : Z := 4300.

(** [int(s)] on a [str], base 10. *)
Definition py_int (s : str) : result Z :=
  let t := strip_int s in
  let '(neg, body) :=
    match t with
    | c :: r => if Ascii.eqb c "-" then (true, r)
                else if Ascii.eqb c "+" then (false, r)
                else (false, t)
    | [] => (false, t)
    end in
  match parse_digits 0 false body with
  | Some n =>
      if (max_str_digits <? Z.of_nat (List.length (filter is_digit body)))%Z
      then Raise ValueError
      else Ok (if neg then (- n)%Z else n)
  | None => Raise ValueError
  end.

Definition hex_char (d : Z) : ascii :=
  if (d <? 10)%Z then ascii_of_nat (48 + Z.to_nat d)
  else ascii_of_nat (87 + Z.to_nat d).

Definition hex_val (c : ascii) : Z :=
  let n := Z.of_nat (nat_of_ascii c) in
  if (n <=? 57)%Z then n - 48
  else if (n <=? 70)%Z then n - 55
  else n - 87.

Fixpoint hex_digits (fuel : nat) (n : Z) (acc : str) : str :=
  match fuel with
  | O => acc
  | S f =>
      let acc' := hex_char (n mod 16) :: acc in
      if (n <? 16)%Z then acc' else hex_digits f (n / 16) acc'
  end.

(** The f-string field [{n:02x}]: lower-case hexadecimal, zero-padded to
    width two, the sign counting in the width. *)
Definition fmt_02x (n : Z) : str :=
  if (n <? 0)%Z
  then "-"%char :: hex_digits (S (Z.to_nat (Z.log2 (- n)))) (- n) []
  else if (n <? 16)%Z then ["0"%char; hex_char n]
       else hex_digits (S (Z.to_nat (Z.log2 n))) n [].

(** [int(s, 16)] on two hexadecimal digits. *)
Definition hex_pair (a b : ascii) : Z := (16 * hex_val a + hex_val b)%Z.

(** ** Floats *)

(** The binary64 number nearest to an integer (ties to even), infinite
    when the integer is too large. *)
Definition nearest_float (z : Z) : float :=
  SF2Prim (binary_normalize prec emax z 0 false).

(** [float(n)] for an [int]: correctly rounded, [OverflowError] when the
    rounded value is not finite. *)
Definition float_of_int (n : Z) : result float :=
  let f := nearest_float n in
  if PrimFloat.is_infinity f then Raise OverflowError else Ok f.

(** [int(f)] for a [float]: truncation towards zero. *)
Definition int_of_float (f : float) : result Z :=
  match Prim2SF f with
  | S754_zero _ => Ok 0%Z
  | S754_finite s m e =>
      let v := if (0 <=? e)%Z then (Z.pos m * 2 ^ e)%Z
               else (Z.pos m / 2 ^ (- e))%Z in
      Ok (if s then (- v)%Z else v)
  | S754_infinity _ => Raise OverflowError
  | S754_nan => Raise ValueError
  end.

(** [max(a, b)] and [min(a, b)] on floats: the first argument is kept
    unless the second is strictly beyond it. *)
Definition py_max (a b : float) : float := if (a <? b)%float then b else a.
Definition py_min (a b : float) : float := if (b <? a)%float then b else a.


(** ** The fragment of [re] the program uses

    Every pattern of [main.py] is a sequence of atoms, an atom being a
    character class under a greedy repetition ([c], [[^>]*], [[^<]+],
    [\d{3,}], [[0-9a-fA-F]{6}]), possibly captured as a group.  Matching is
    Python's: each atom first takes the longest run it can and gives
    characters back one at a time until the rest of the pattern matches. *)

Module Re.

Record atom : Type := Atom {
  cls : ascii -> bool;       (* the character class *)
  rmin : nat;                (* least number of repetitions *)
  rmax : option nat;         (* greatest number, [None] for no bound *)
  grp : bool                 (* captured by parentheses *)
}.

Definition pattern : Type := list atom.

Definition chr (c : ascii) : atom := Atom (Ascii.eqb c) 1 (Some 1) false.
Definition lits (s : string) : pattern := map chr (list_ascii_of_string s).
Definition star (f : ascii -> bool) : atom := Atom f 0 None false.
Definition plus (f : ascii -> bool) : atom := Atom f 1 None false.
Definition at_least (n : nat) (f : ascii -> bool) : atom := Atom f n None false.
Definition exactly (n : nat) (f : ascii -> bool) : atom :=
  Atom f n (Some n) false.
Definition group (a : atom) : atom := Atom (cls a) (rmin a) (rmax a) true.
Definition other_than (c : ascii) : ascii -> bool :=
  fun x => negb (Ascii.eqb c x).

(** Length of the longest prefix of [s] made of characters of [f]. *)
Fixpoint span (f : ascii -> bool) (s : str) : nat :=
  match s with
  | c :: s' => if f c then S (span f s') else 0
  | [] => 0
  end.

(** The most characters the atom can take at the head of [s]. *)
Definition run (a : atom) (s : str) : nat :=
  match rmax a with
  | Some m => Nat.min (span (cls a) s) m
  | None => span (cls a) s
  end.

(** Try [k], [k-1], ..., [lo] characters, the first success wins. *)
Fixpoint backtrack {A : Type} (k lo : nat) (try : nat -> option A) : option A :=
  if k <? lo then None
  else match try k with
       | Some r => Some r
       | None => match k with
                 | O => None
                 | S k' => backtrack k' lo try
                 end
       end.

(** A match of [p] at the head of [s]: its length and its groups. *)
Fixpoint match_here (p : pattern) (s : str) : option (nat * list str) :=
  match p with
  | [] => Some (0, [])
  | a :: p' =>
      backtrack (run a s) (rmin a)
        (fun k =>
           match match_here p' (skipn k s) with
           | Some (m, gs) =>
               Some (k + m, if grp a then firstn k s :: gs else gs)
           | None => None
           end)
  end.

(** A match object: the matched text ([group(0)]) and the groups. *)
Record match_obj : Type := Match { group0 : str; groups : list str }.

(** [re.search(p, s)]: the leftmost match. *)
Fixpoint search (p : pattern) (s : str) : option match_obj :=
  match match_here p s with
  | Some (n, gs) => Some (Match (firstn n s) gs)
  | None => match s with
            | [] => None
            | _ :: s' => search p s'
            end
  end.

(** [re.sub(p, repl, s)] with a function [repl]: the non-overlapping
    matches, leftmost first, are replaced by what [repl] returns.  [skip]
    counts the characters of the current match still to be passed over.
    No pattern of the program matches the empty string, so a match of
    length zero is not looked for. *)
Fixpoint sub_from (p : pattern) (repl : match_obj -> result str)
    (skip : nat) (s : str) : result str :=
  match s with
  | [] => Ok []
  | c :: s' =>
      match skip with
      | S k => sub_from p repl k s'
      | O =>
          match match_here p s with
          | Some (S n, gs) =>
              r <- repl (Match (firstn (S n) s) gs) ;;
              rest <- sub_from p repl n s' ;;
              Ok (r ++ rest)
          | _ =>
              rest <- sub_from p repl 0 s' ;;
              Ok (c :: rest)
          end
      end
  end.

Definition sub (p : pattern) (repl : match_obj -> result str) (s : str)
  : result str := sub_from p repl 0 s.

(** *** Replacement templates

    [re.sub(p, template, s)] with a string.  A template without a
    backslash stands for itself.  Otherwise [re] compiles it first (its
    [parse_template]): [\g<n>] and [\1] to [\99] stand for groups; [\0],
    [\0o], [\0oo] and [\ooo] for the character of that octal code;
    [\a \b \f \n \r \t \v] for control characters and [\\] for the
    backslash; a backslash before another ASCII letter is refused, and
    before any other character it stays. *)

Inductive token : Type :=
| Chr (c : ascii)
| Esc (c : ascii).        (* a backslash and the character after it *)

(** The tokens of a template, and whether a lone backslash ends it. *)
Fixpoint tokens (s : str) : list token * bool :=
  match s with
  | [] => ([], false)
  | c :: s' =>
      if Ascii.eqb c "\"
      then match s' with
           | [] => ([], true)
           | d :: s'' => let (ts, bad) := tokens s'' in (Esc d :: ts, bad)
           end
      else let (ts, bad) := tokens s' in (Chr c :: ts, bad)
  end.

(** A compiled template: characters and references to groups. *)
Inductive piece : Type :=
| Lit (c : ascii)
| Ref (index : nat).

Definition is_octal (c : ascii) : bool :=
  let n := nat_of_ascii c in (48 <=? n) && (n <=? 55).

Definition is_ascii_letter (c : ascii) : bool :=
  let n := nat_of_ascii c in
  ((65 <=? n) && (n <=? 90)) || ((97 <=? n) && (n <=? 122)).

(** [ESCAPES] *)
Definition escape_code (c : ascii) : option ascii :=
  if Ascii.eqb c "a" then Some (ascii_of_nat 7)
  else if Ascii.eqb c "b" then Some (ascii_of_nat 8)
  else if Ascii.eqb c "f" then Some (ascii_of_nat 12)
  else if Ascii.eqb c "n" then Some (ascii_of_nat 10)
  else if Ascii.eqb c "r" then Some (ascii_of_nat 13)
  else if Ascii.eqb c "t" then Some (ascii_of_nat 9)
  else if Ascii.eqb c "v" then Some (ascii_of_nat 11)
  else if Ascii.eqb c "\" then Some "\"%char
  else None.

(** [str.isidentifier] on code points below 256. *)
Definition is_id_start (c : ascii) : bool :=
  let n := nat_of_ascii c in
  ((65 <=? n) && (n <=? 90)) || (n =? 95) || ((97 <=? n) && (n <=? 122))
  || (n =? 170) || (n =? 181) || (n =? 186)
  || ((192 <=? n) && (n <=? 214)) || ((216 <=? n) && (n <=? 246))
  || (248 <=? n).

Definition is_id_continue (c : ascii) : bool :=
  is_id_start c || is_digit c || (nat_of_ascii c =? 183).

Definition is_identifier (name : str) : bool :=
  match name with
  | [] => false
  | c :: rest => is_id_start c && forallb is_id_continue rest
  end.

(** [MAXGROUPS] *)
Definition max_groups : Z := 1073741823.

Section Template.

Variable ngroups : nat.      (* the number of groups of the pattern *)
Variable bad : bool.         (* a lone backslash ends the template *)

(** The tokenizer reads one token ahead: on passing the last token it
    meets the lone backslash, if there is one. *)
Definition ahead (ts : list token) : result unit :=
  match ts with
  | [] => if bad then Raise ReError else Ok tt
  | _ :: _ => Ok tt
  end.

(** [getuntil('>')]: the name of a group, and the tokens after it. *)
Fixpoint getuntil (ts : list token) (name : str)
  : result (str * list token) :=
  match ts with
  | [] => Raise ReError
  | t :: ts' =>
      u <- ahead ts' ;;
      match t with
      | Chr c =>
          if Ascii.eqb c ">"
          then match name with
               | [] => Raise ReError
               | _ :: _ => Ok (name, ts')
               end
          else getuntil ts' (name ++ [c])
      | Esc c => getuntil ts' (name ++ ["\"%char; c])
      end
  end.

(** [addgroup]: the pattern must have the group. *)
Definition addgroup (index : Z) : result nat :=
  if (Z.of_nat ngroups <? index)%Z then Raise ReError
  else Ok (Z.to_nat index).

(** The group of [\g<name>]: no pattern of the program names a group, so
    an identifier is an unknown name; anything else is read as a number. *)
Definition group_of_name (name : str) : result nat :=
  if is_identifier name then Raise IndexError
  else match py_int name with
       | Ok index =>
           if (index <? 0)%Z then Raise ReError
           else if (max_groups <=? index)%Z then Raise ReError
           else addgroup index
       | Raise _ => Raise ReError
       end.

(** [fuel] bounds the number of tokens. *)
Fixpoint parse_tokens (fuel : nat) (ts : list token) : result (list piece) :=
  match ts with
  | [] => Ok []
  | t :: ts1 =>
      match fuel with
      | O => Raise ReError
      | S fuel =>
          let lit := fun (c : ascii) (ts : list token) =>
            rest <- parse_tokens fuel ts ;; Ok (Lit c :: rest) in
          let octal := fun (v : Z) (ts : list token) =>
            lit (ascii_of_nat (Z.to_nat v)) ts in
          let group := fun (index : Z) (ts : list token) =>
            i <- addgroup index ;;
            rest <- parse_tokens fuel ts ;; Ok (Ref i :: rest) in
          u <- ahead ts1 ;;
          match t with
          | Chr c => lit c ts1
          | Esc c =>
              if Ascii.eqb c "g" then
                match ts1 with
                | Chr lt :: ts2 =>
                    if Ascii.eqb lt "<" then
                      u <- ahead ts2 ;;
                      named <- getuntil ts2 [] ;;
                      i <- group_of_name (fst named) ;;
                      rest <- parse_tokens fuel (snd named) ;;
                      Ok (Ref i :: rest)
                    else Raise ReError
                | _ => Raise ReError
                end
              else if Ascii.eqb c "0" then
                match ts1 with
                | Chr d1 :: ts2 =>
                    if is_octal d1 then
                      u <- ahead ts2 ;;
                      match ts2 with
                      | Chr d2 :: ts3 =>
                          if is_octal d2 then
                            u <- ahead ts3 ;;
                            octal (8 * digit_val d1 + digit_val d2)%Z ts3
                          else octal (digit_val d1) ts2
                      | _ => octal (digit_val d1) ts2
                      end
                    else octal 0%Z ts1
                | _ => octal 0%Z ts1
                end
              else if is_digit c then
                match ts1 with
                | Chr d :: ts2 =>
                    if is_digit d then
                      u <- ahead ts2 ;;
                      let two := (10 * digit_val c + digit_val d)%Z in
                      match ts2 with
                      | Chr e :: ts3 =>
                          if is_octal c && is_octal d && is_octal e then
                            u <- ahead ts3 ;;
                            let v := (64 * digit_val c + 8 * digit_val d
                                      + digit_val e)%Z in
                            if (255 <? v)%Z then Raise ReError
                            else octal v ts3
                          else group two ts2
                      | _ => group two ts2
                      end
                    else group (digit_val c) ts1
                | _ => group (digit_val c) ts1
                end
              else
                match escape_code c with
                | Some e => lit e ts1
                | None =>
                    if is_ascii_letter c then Raise ReError
                    else rest <- parse_tokens fuel ts1 ;;
                         Ok (Lit "\"%char :: Lit c :: rest)
                end
          end
      end
  end.

End Template.

(** [parse_template] *)
Definition parse_template (ngroups : nat) (template : str)
  : result (list piece) :=
  let '(ts, bad) := tokens template in
  u <- ahead bad ts ;;
  parse_tokens ngroups bad (List.length ts) ts.

(** [expand_template] *)
Definition expand_template (pieces : list piece) (m : match_obj) : str :=
  flat_map (fun p => match p with
                     | Lit c => [c]
                     | Ref O => group0 m
                     | Ref (S i) => nth i (groups m) []
                     end) pieces.

Definition count_groups (p : pattern) : nat := List.length (filter grp p).

Definition sub_template (p : pattern) (template : str) (s : str) : result str :=
  if existsb (Ascii.eqb "\"%char) template
  then pieces <- parse_template (count_groups p) template ;;
       sub p (fun m => Ok (expand_template pieces m)) s
  else sub p (fun _ => Ok template) s.

End Re.

(** ** The three rewrite passes *)

Definition dq : ascii := ascii_of_nat 34.

(** [sq s] is the text [s] with every apostrophe read as a double quote;
    the patterns and texts quoted in the comments below are written the
    same way. *)
Definition sq (s : string) : str :=
  map (fun c => if Ascii.eqb c "'" then dq else c) (lit s).

Definition fst_group (m : Re.match_obj) : str := nth 0 (Re.groups m) [].

(** *** Kerning merge ([_remove_svg_kerning]) *)

(** [<text[^>]*x='[^']*\s[^']*'[^>]*y='[^']*'[^>]*>[^<]+</text>] *)
Definition kerning_pattern : Re.pattern :=
  Re.lits "<text" ++ [Re.star (Re.other_than ">")] ++
  Re.lits "x=" ++
  [Re.chr dq; Re.star (Re.other_than dq); Re.exactly 1 is_space;
   Re.star (Re.other_than dq); Re.chr dq; Re.star (Re.other_than ">")] ++
  Re.lits "y=" ++
  [Re.chr dq; Re.star (Re.other_than dq); Re.chr dq;
   Re.star (Re.other_than ">"); Re.chr ">"; Re.plus (Re.other_than "<")] ++
  Re.lits "</text>".

(** [x='([^']+)'] and [y='([^']+)'] *)
Definition attr_group_pattern (name : ascii) : Re.pattern :=
  [Re.chr name; Re.chr "="; Re.chr dq;
   Re.group (Re.plus (Re.other_than dq)); Re.chr dq].

(** [x='[^']+'] and [y='[^']+'] *)
Definition attr_pattern (name : ascii) : Re.pattern :=
  [Re.chr name; Re.chr "="; Re.chr dq; Re.plus (Re.other_than dq); Re.chr dq].

(** [>([^<]+)<] *)
Definition text_pattern : Re.pattern :=
  [Re.chr ">"; Re.group (Re.plus (Re.other_than "<")); Re.chr "<"].

(** The f-string [x='{v}'] (or [y='{v}']). *)
Definition attr_text (name : ascii) (v : str) : str :=
  name :: "="%char :: dq :: v ++ [dq].

Definition merge_text_spans (m : Re.match_obj) : result str :=
  let full_tag := Re.group0 m in
  match Re.search (attr_group_pattern "x") full_tag,
        Re.search (attr_group_pattern "y") full_tag,
        Re.search text_pattern full_tag with
  | Some x_match, Some y_match, Some _ =>
      match split_ws (fst_group x_match), split_ws (fst_group y_match) with
      | first_x :: _, first_y :: _ =>
          new_tag <- Re.sub_template (attr_pattern "x")
                       (attr_text "x" first_x) full_tag ;;
          Re.sub_template (attr_pattern "y") (attr_text "y" first_y) new_tag
      | _, _ => Ok full_tag
      end
  | _, _, _ => Ok full_tag
  end.

Definition _remove_svg_kerning (svg : str) : result str :=
  Re.sub kerning_pattern merge_text_spans svg.

(** *** Background removal ([_remove_svg_background]) *)

Definition is_white (line : str) : bool :=
  contains (sq "fill='#ffffff'") line || contains (sq "fill='#fff'") line
  || contains (sq "fill='rgb(255,255,255)'") line
  || contains (sq "fill='white'") line.

(** [[HV]\s*\d{3,}] *)
Definition hv_pattern : Re.pattern :=
  [Re.exactly 1 (fun c => Ascii.eqb c "H" || Ascii.eqb c "V");
   Re.star is_space; Re.at_least 3 is_digit].

Definition found (o : option Re.match_obj) : bool :=
  match o with Some _ => true | None => false end.

(** The lines the loop skips with [continue]. *)
Definition is_background_line (line : str) : bool :=
  if is_white line then
    if contains (lit "<rect") line
       && (contains (sq "x='0'") line || contains (sq "y='0'") line)
    then true
    else if contains (lit "<path") line
         then found (Re.search hv_pattern line)
         else false
  else false.

Definition _remove_svg_background (svg : str) : str :=
  let lines := split_on nl svg in
  let filtered_lines := filter (fun l => negb (is_background_line l)) lines in
  join_with nl filtered_lines.

(** *** Grayscale conversion ([_convert_svg_grayscale]) *)

(** [int(0.299 * r + 0.587 * g + 0.114 * b)] on [int] channels, in
    binary64. *)
Definition luminance (r g b : Z) : result Z :=
  fr <- float_of_int r ;;
  fg <- float_of_int g ;;
  fb <- float_of_int b ;;
  int_of_float (0.299 * fr + 0.587 * fg + 0.114 * fb)%float.

(** [rgb\(([^)]+)\)] *)
Definition rgb_pattern : Re.pattern :=
  Re.lits "rgb(" ++ [Re.group (Re.plus (Re.other_than ")")); Re.chr ")"].

(** [#([0-9a-fA-F]{6})] *)
Definition hex_pattern : Re.pattern :=
  [Re.chr "#"; Re.group (Re.exactly 6 is_hex)].

(** The f-string [rgb({gray},{gray},{gray})]. *)
Definition rgb_text (gray : Z) : str :=
  lit "rgb(" ++ dec gray ++ ","%char :: dec gray ++ ","%char :: dec gray
  ++ [")"%char].

Definition rgb_to_gray (m : Re.match_obj) : result str :=
  match split_on ","%char (fst_group m) with
  | [vr; vg; vb] =>
      r <- py_int (strip vr) ;;
      g <- py_int (strip vg) ;;
      b <- py_int (strip vb) ;;
      gray <- luminance r g b ;;
      Ok (rgb_text gray)
  | _ => Ok (Re.group0 m)
  end.

(** The f-string [#{gray_hex}{gray_hex}{gray_hex}]. *)
Definition hex_text (gray : Z) : str :=
  "#"%char :: fmt_02x gray ++ fmt_02x gray ++ fmt_02x gray.

Definition hex_to_gray (m : Re.match_obj) : result str :=
  match fst_group m with
  | [r1; r2; g1; g2; b1; b2] =>
      gray <- luminance (hex_pair r1 r2) (hex_pair g1 g2) (hex_pair b1 b2) ;;
      Ok (hex_text gray)
  | _ => Ok (Re.group0 m)
  end.

Definition gray_rgb_pass (svg : str) : result str :=
  Re.sub rgb_pattern rgb_to_gray svg.

Definition gray_hex_pass (svg : str) : result str :=
  Re.sub hex_pattern hex_to_gray svg.

Definition _convert_svg_grayscale (svg : str) : result str :=
  svg1 <- gray_rgb_pass svg ;;
  gray_hex_pass svg1.

(** ** The application state and the export path *)

(** [fitz.Rect] *)
Record Rect : Type := mkRect { x0 : float; y0 : float; x1 : float; y1 : float }.

(** A Tk event, as far as [_on_zoom] reads it.  An event that is not a
    button press carries a [num] that equals neither 4 nor 5. *)
Record Event : Type := mkEvent { num : Z; delta : Z }.

(** What a handler asks of the message boxes and of the file system. *)
Inductive effect : Type :=
| ShowWarning (title : string) (e : exn)   (* showwarning(title, str(e)) *)
| ShowInfo (title : string)
| ShowError (title : string)
| WriteFile (path : str) (text : str)
| SetClipboard (text : str).

Section App.

(** The rendering engine is not part of the program: an open document is
    a value of [Doc], and the properties of [fitz.Rect] the program reads
    ([width], [height], its truth value) are functions of the rectangle. *)
Variable Doc : Type.
Variable rect_width rect_height : Rect -> float.
Variable rect_true : Rect -> bool.

(** A page of the new document: [new_page] fixes its size, [show_pdf_page]
    places a clipped source page into a target rectangle. *)
Record Page : Type := mkPage {
  page_width : float;
  page_height : float;
  shown : list (Rect * Doc * Z * Rect)   (* target, source, page number, clip *)
}.

Definition new_page (width height : float) : Page := mkPage width height [].

Definition show_pdf_page (page : Page) (target : Rect) (src : Doc) (pno : Z)
    (clip : Rect) : Page :=
  mkPage (page_width page) (page_height page)
         (shown page ++ [(target, src, pno, clip)]).

(** [page.get_svg_image(text_as_path=...)] *)
Variable get_svg_image : Page -> bool -> str.

Record App : Type := mkApp {
  doc : option Doc;
  page_index : Z;
  scale : float;
  zoom_level : float;
  auto_fit : bool;
  photo : option (Z * Z);            (* width and height of the page image *)
  sel_start : option (Z * Z);
  sel_end : option (Z * Z);
  preserve_text : bool;
  remove_kerning : bool;
  remove_background : bool;
  convert_grayscale : bool
}.

(** *** [_on_zoom] *)

(** The state after the handler, and whether it called
    [_render_current_page] (which does not assign [zoom_level]). *)
Definition _on_zoom (self : App) (event : Event) : App * bool :=
  match doc self with
  | None => (self, false)
  | Some _ =>
      let zoom_factor :=
        if (num event =? 4)%Z || (delta event >? 0)%Z then Some 1.1%float
        else if (num event =? 5)%Z || (delta event <? 0)%Z then Some 0.9%float
        else None in
      match zoom_factor with
      | None => (self, false)
      | Some zoom_factor =>
          let new_zoom := (zoom_level self * zoom_factor)%float in
          let new_zoom := py_max 0.1 (py_min 10.0 new_zoom) in
          if negb (new_zoom =? zoom_level self)%float
          then (mkApp (doc self) (page_index self) (scale self) new_zoom false
                      (photo self) (sel_start self) (sel_end self)
                      (preserve_text self) (remove_kerning self)
                      (remove_background self) (convert_grayscale self),
                true)
          else (self, false)
      end
  end.

(** *** The selection *)

Definition _get_selection_rect_image_coords (self : App)
  : option (Z * Z * Z * Z) :=
  match sel_start self, sel_end self, photo self with
  | Some (sx0, sy0), Some (sx1, sy1), Some (w, h) =>
      let cx0 := Z.min (Z.max 0 sx0) w in
      let cy0 := Z.min (Z.max 0 sy0) h in
      let cx1 := Z.min (Z.max 0 sx1) w in
      let cy1 := Z.min (Z.max 0 sy1) h in
      let '(rx0, ry0) := (Z.min cx0 cx1, Z.min cy0 cy1) in
      let '(rx1, ry1) := (Z.max cx0 cx1, Z.max cy0 cy1) in
      if (rx1 - rx0 <? 1)%Z || (ry1 - ry0 <? 1)%Z then None
      else Some (rx0, ry0, rx1, ry1)
  | _, _, _ => None
  end.

(** [n * f] for an [int] and a [float] *)
Definition int_mul_float (n : Z) (f : float) : result float :=
  fn <- float_of_int n ;;
  Ok (fn * f)%float.

Definition _selection_pdf_rect (self : App) : result (option Rect) :=
  match _get_selection_rect_image_coords self, doc self with
  | Some (px0, py0, px1, py1), Some _ =>
      let px_to_pt := (1.0 / py_max (scale self) 1e-6)%float in
      left <- int_mul_float px0 px_to_pt ;;
      top <- int_mul_float py0 px_to_pt ;;
      right <- int_mul_float px1 px_to_pt ;;
      bottom <- int_mul_float py1 px_to_pt ;;
      Ok (Some (mkRect left top right bottom))
  | _, _ => Ok None
  end.

(** *** [_svg_from_selection] *)

(** The first half of [_svg_from_selection], up to [show_pdf_page]: the
    guards and the page of the new document. *)
Definition clipped_page (self : App) : result Page :=
  match doc self with
  | None => Raise (RuntimeError "No PDF open")
  | Some d =>
      clip_rect <- _selection_pdf_rect self ;;
      match clip_rect with
      | None => Raise (RuntimeError "No valid selection to export")
      | Some clip_rect =>
          if negb (rect_true clip_rect)
          then Raise (RuntimeError "No valid selection to export")
          else if (rect_width clip_rect <=? 0)%float
                  || (rect_height clip_rect <=? 0)%float
          then Raise (RuntimeError "Selection has zero size")
          else
            let src_pno := page_index self in
            let page :=
              new_page (rect_width clip_rect) (rect_height clip_rect) in
            let target :=
              mkRect 0 0 (rect_width clip_rect) (rect_height clip_rect) in
            Ok (show_pdf_page page target d src_pno clip_rect)
      end
  end.

(** The second half: the rendering and the rewrite passes. *)
Definition _svg_from_selection (self : App) : result str :=
  page <- clipped_page self ;;
  let svg := get_svg_image page (negb (preserve_text self)) in
  svg <- (if preserve_text self && remove_kerning self
          then _remove_svg_kerning svg else Ok svg) ;;
  let svg := if remove_background self
             then _remove_svg_background svg else svg in
  svg <- (if convert_grayscale self
          then _convert_svg_grayscale svg else Ok svg) ;;
  Ok svg.

(** *** The two commands

    [path] is what the save dialog returned (empty when cancelled);
    [io_ok] tells whether writing the file, or setting the clipboard,
    succeeded. *)
Definition export_selection_as_svg (self : App) (path : str) (io_ok : bool)
  : list effect :=
  match _svg_from_selection self with
  | Raise e => [ShowWarning "Export SVG" e]
  | Ok svg =>
      match path with
      | [] => []
      | _ => if io_ok then [WriteFile path svg; ShowInfo "Export SVG"]
             else [ShowError "Export SVG"]
      end
  end.

Definition copy_svg_to_clipboard (self : App) (io_ok : bool) : list effect :=
  match _svg_from_selection self with
  | Raise e => [ShowWarning "Copy SVG" e]
  | Ok svg => if io_ok then [SetClipboard svg; ShowInfo "Copy SVG"]
              else [ShowError "Copy SVG"]
  end.

End App.

Arguments mkApp {Doc}.
Arguments mkPage {Doc}.

(** ** Notions used in the statements *)

(** The closed interval [0.1, 10.0] of zoom levels. *)
Definition zoom_in_range (z : float) : bool :=
  ((0.1 <=? z) && (z <=? 10.0))%float.



(** A coordinate clamped to the image, as the selection code does. *)
Definition clamp_px (v size : Z) : Z := Z.min (Z.max 0 v) size.

(** A finalized selection: both corners set on a rendered page, and at
    least one pixel apart in both dimensions once clamped to the image. *)
Definition has_selection {Doc : Type} (self : App Doc) : Prop :=
  exists sx0 sy0 sx1 sy1 w h,
    sel_start self = Some (sx0, sy0) /\ sel_end self = Some (sx1, sy1)
    /\ photo self = Some (w, h)
    /\ (1 <= Z.abs (clamp_px sx1 w - clamp_px sx0 w))%Z
    /\ (1 <= Z.abs (clamp_px sy1 h - clamp_px sy0 h))%Z.

(** A pass that is applied only when its toggle is set. *)
Definition when (enabled : bool) (pass : str -> result str) (svg : str)
  : result str :=
  if enabled then pass svg else Ok svg.

(** Kerning merge, then background removal, then grayscale conversion,
    each under its toggle. *)
Definition rewrite_passes (kerning background grayscale : bool) (svg : str)
  : result str :=
  svg1 <- when kerning _remove_svg_kerning svg ;;
  svg2 <- when background (fun s => Ok (_remove_svg_background s)) svg1 ;;
  when grayscale _convert_svg_grayscale svg2.

(** A state with an open one-page document, a 10 x 10 page image and the
    selection from (0, 0) to (1, 1). *)
Definition app_at_scale (s : float) (text kerning background grayscale : bool)
  : App unit :=
  mkApp (Some tt) 0 s 1.0 true (Some (10, 10)%Z) (Some (0, 0)%Z)
        (Some (1, 1)%Z) text kerning background grayscale.

(** The width, the height and the truth value of a [fitz.Rect] whose
    corners are in order. *)
Definition width_of (r : Rect) : float := (x1 r - x0 r)%float.
Definition height_of (r : Rect) : float := (y1 r - y0 r)%float.
Definition nonzero_rect (r : Rect) : bool :=
  negb ((x0 r =? 0) && (y0 r =? 0) && (x1 r =? 0) && (y1 r =? 0))%float.

(** An engine that renders every page as one line of text, the page
    showing the words [rgb(50%,0,0)]. *)
Definition render_css_text (page : Page unit) (text_as_path : bool) : str :=
  sq "<text><tspan x='1' y='2'>rgb(50%,0,0)</tspan></text>".

Definition is_runtime_error (e : exn) : bool :=
  match e with
  | RuntimeError _ => true
  | _ => false
  end.

(** The clip rectangle is refused by the guards of [_svg_from_selection]:
    it is empty, or its width or its height is not positive. *)
Definition clip_refused (rect_width rect_height : Rect -> float)
    (rect_true : Rect -> bool) (clip : Rect) : Prop :=
  rect_true clip = false
  \/ (rect_width clip <=? 0)%float = true
  \/ (rect_height clip <=? 0)%float = true.

(** The characters of a printed integer: digits, after a sign if any. *)
Definition is_dec_char (c : ascii) : bool := is_digit c || Ascii.eqb c "-".

(** The decimal text of [n] has at most 4300 digits, so that [int] reads
    it back. *)
Definition int_text_ok (n : Z) : bool := (Z.abs n <? 10 ^ max_str_digits)%Z.

(** The luminance formula in exact arithmetic, truncated:
    0.299 r + 0.587 g + 0.114 b = (299 r + 587 g + 114 b) / 1000. *)
Definition exact_gray (r g b : Z) : Z :=
  Z.quot (299 * r + 587 * g + 114 * b) 1000.

(** The text [rgb(r,g,b)] for integer channels. *)
Definition rgb_triple (r g b : Z) : str :=
  lit "rgb(" ++ dec r ++ ","%char :: dec g ++ ","%char :: dec b ++ [")"%char].

(** [sub] occurs somewhere in [s]. *)
Definition occurs (sub s : str) : Prop :=
  exists pre post, s = pre ++ sub ++ post.

(** A pure white fill, written as a six-digit or three-digit hexadecimal
    literal, as an [rgb()] literal or by name. *)
Definition white_fill (line : str) : Prop :=
  occurs (sq "fill='#ffffff'") line \/ occurs (sq "fill='#fff'") line
  \/ occurs (sq "fill='rgb(255,255,255)'") line
  \/ occurs (sq "fill='white'") line.

(** An [H] or [V] command whose number has three or more digits, with or
    without a sign. *)
Definition hv_magnitude (line : str) : Prop :=
  exists pre c ws sign ds post,
    line = pre ++ c :: ws ++ sign ++ ds ++ post
    /\ (c = "H"%char \/ c = "V"%char)
    /\ Forall (fun x => is_space x = true) ws
    /\ (sign = [] \/ sign = ["-"%char])
    /\ Forall (fun x => is_digit x = true) ds
    /\ 3 <= List.length ds.

(** An [H] or [V] followed, after optional white space, by three or more
    decimal digits. *)
Definition hv_digits (line : str) : Prop :=
  exists pre c ws ds post,
    line = pre ++ c :: ws ++ ds ++ post
    /\ (c = "H"%char \/ c = "V"%char)
    /\ Forall (fun x => is_space x = true) ws
    /\ Forall (fun x => is_digit x = true) ds
    /\ 3 <= List.length ds.

(** The lines the background removal keeps. *)
Definition kept_lines (lines : list str) : list str :=
  filter (fun l => negb (is_background_line l)) lines.



(** A state with no document open. *)
Definition app_closed : App unit :=
  mkApp None 0 1.0 1.0 true None None None true false false false.



(** *** Binary64 values on the byte range

    The notions below serve the comparison of [luminance] with the exact
    formula on channels from 0 to 255. *)

(** The value of a non-negative float, scaled by 2^1074 (an integer). *)
Definition scaled_value (x : spec_float) : Z :=
  match x with
  | S754_finite false m e => (Z.pos m * 2 ^ (e + 1074))%Z
  | _ => 0%Z
  end.

Definition nonneg_finite (x : spec_float) : bool :=
  match x with
  | S754_zero _ => true
  | S754_finite false _ _ => true
  | _ => false
  end.

Definition bytes : list Z := map Z.of_nat (seq 0 256).

(** The floats 0, 0, 1, 2, ..., 257: at index [q] the greatest integer
    that is at least [q - 1] and not negative, at index [q + 2] the integer
    [q + 1]. *)
Definition ladder : list float :=
  map nearest_float (0%Z :: map Z.of_nat (seq 0 258)).

(** [s + c] lies between the floats at the head of [fs] and two places
    further, for every [c] of [cs] in turn; [fs] moves one place on each
    time the remainder [rem], which grows by 114 from one [c] to the next,
    passes 1000. *)
Fixpoint gray_window (s : float) (cs : list float) (rem : Uint63.int)
    (fs : list float) : bool :=
  match cs with
  | [] => true
  | c :: cs' =>
      match fs with
      | lo :: _ :: hi :: _ =>
          let t := (s + c)%float in
          ((lo <=? t) && (t <? hi))%float
          && (let rem' := (rem + 114)%uint63 in
              if (rem' <? 1000)%uint63 then gray_window s cs' rem' fs
              else gray_window s cs' (rem' - 1000)%uint63 (tl fs))
      | _ => false
      end
  end.

Definition blue_terms : list float :=
  map (fun b => (0.114 * nearest_float b)%float) bytes.

(** The ladder float at index [k] is the integer [max 0 (k - 1)]. *)
Definition ladder_entry (k : nat) : bool :=
  match Prim2SF (nth k ladder 0%float) with
  | S754_zero _ => (Z.max 0 (Z.of_nat k - 1) =? 0)%Z
  | S754_finite false m e =>
      (Z.pos m * 2 ^ (e + 1074) =? Z.max 0 (Z.of_nat k - 1) * 2 ^ 1074)%Z
  | _ => false
  end.

Definition finite_float (z : Z) : bool :=
  negb (PrimFloat.is_infinity (nearest_float z)).

(** ** The rest of the window: recent files, pages, mouse, rendering *)

(** *** Recent files ([_add_to_recent]) *)

Definition str_eqb (a b : str) : bool :=
  if list_eq_dec ascii_dec a b then true else false.

(** [x in l] *)
Definition in_list (x : str) (l : list str) : bool := existsb (str_eqb x) l.

(** [l.remove(x)]: the first occurrence goes. *)
Fixpoint remove_first (x : str) (l : list str) : list str :=
  match l with
  | [] => []
  | y :: l' => if str_eqb x y then l' else y :: remove_first x l'
  end.

(** The list after [_add_to_recent(path)], which is also the list written
    to disk; [absolute] stands for [str(Path(path).absolute())]. *)
Definition _add_to_recent (absolute : str -> str) (recent_files : list str)
    (path : str) : list str :=
  let path := absolute path in
  let recent_files :=
    if in_list path recent_files then remove_first path recent_files
    else recent_files in
  let recent_files := path :: recent_files in
  firstn 10 recent_files.

(** *** Pages ([prev_page], [next_page], [goto_page], [open_from_url]) *)

(** What [goto_page] tells the user when it does not move. *)
Inductive goto_notice : Type :=
| PageOutOfRange (page_count : Z)   (* Page must be between 1 and ... *)
| InvalidPageNumber.                (* Please enter a valid page number *)

(** The page number asked for by a URL fragment, counted from 0:
    [page=12] asks for page 11. *)
Definition target_page_of_fragment (fragment : str) : option Z :=
  match fragment with
  | [] => None
  | _ =>
      if starts_with (lit "page=") fragment
      then match split_on "="%char fragment with
           | _ :: number :: _ =>
               match py_int number with
               | Ok n => Some (n - 1)%Z
               | Raise _ => None
               end
           | _ => None
           end
      else None
  end.

(** A mouse event, as far as the selection handlers read it. *)
Record MouseEvent : Type := mkMouse { ev_x : Z; ev_y : Z }.

(** What [_render_current_page] keeps beside the fields of [App]. *)
Record Layout : Type := mkLayout { base_scale : float; img_origin : Z * Z }.

Section Window.

Variable Doc : Type.

(** [doc.page_count], the width [page.rect.width] of a page, and the size
    in pixels of the pixmap the engine renders for a page at a scale.  The
    engine is taken to answer; a page index it would refuse is excluded by
    [page_in_range] below.  The page count is a machine integer of the
    engine, so that the page numbers the window prints stay far below the
    4300 digits [str] allows. *)
Variable page_count : Doc -> Z.
Variable page_rect_width : Doc -> Z -> float.
Variable pixmap_size : Doc -> Z -> float -> Z * Z.

Definition set_page (self : App Doc) (index : Z) : App Doc :=
  mkApp (doc self) index (scale self) (zoom_level self) (auto_fit self)
        (photo self) (sel_start self) (sel_end self) (preserve_text self)
        (remove_kerning self) (remove_background self)
        (convert_grayscale self).

Definition set_selection (self : App Doc) (start stop : option (Z * Z))
  : App Doc :=
  mkApp (doc self) (page_index self) (scale self) (zoom_level self)
        (auto_fit self) (photo self) start stop (preserve_text self)
        (remove_kerning self) (remove_background self)
        (convert_grayscale self).

(** The state after the handler, and whether it called
    [_render_current_page] (which does not assign [page_index]). *)
Definition prev_page (self : App Doc) : App Doc * bool :=
  match doc self with
  | None => (self, false)
  | Some _ =>
      if (page_index self >? 0)%Z
      then (set_page self (page_index self - 1), true)
      else (self, false)
  end.

Definition next_page (self : App Doc) : App Doc * bool :=
  match doc self with
  | None => (self, false)
  | Some d =>
      if (page_index self <? page_count d - 1)%Z
      then (set_page self (page_index self + 1), true)
      else (self, false)
  end.

(** [entry] is the text of the page field. *)
Definition goto_page (self : App Doc) (entry : str)
  : App Doc * bool * option goto_notice :=
  match doc self with
  | None => (self, false, None)
  | Some d =>
      match py_int entry with
      | Ok page_num =>
          if (1 <=? page_num)%Z && (page_num <=? page_count d)%Z
          then (set_page self (page_num - 1), true, None)
          else (self, false, Some (PageOutOfRange (page_count d)))
      | Raise _ => (self, false, Some InvalidPageNumber)
      end
  end.

(** The end of [open_from_url]: the jump to the page of the fragment, on
    the state left by [open_pdf]. *)
Definition jump_to_target (self : App Doc) (target_page : option Z)
  : App Doc * bool :=
  match target_page, doc self with
  | Some t, Some d =>
      if (0 <=? t)%Z && (t <? page_count d)%Z then (set_page self t, true)
      else (self, false)
  | _, _ => (self, false)
  end.

(** What [_update_page_label] shows: the text of the label and the text
    of the page field. *)
Definition _update_page_label (self : App Doc) : str * str :=
  match doc self with
  | Some d => ("/"%char :: dec (page_count d), dec (page_index self + 1))
  | None => (lit "/-", [])
  end.

(** *** Rendering ([_render_current_page]) *)

Inductive render_outcome : Type :=
| Painted (self : App Doc) (layout : Layout)
| NotOpen          (* no document: nothing happens *)
| Deferred         (* canvas not realised: the call is scheduled again *)
| ZeroDivision     (* the page has width 0: ZeroDivisionError *)
| TooLarge.        (* the width does not fit a float: OverflowError *)

(** [stored] is the attribute [base_scale] if it exists; [winfo_width] and
    [winfo_height] are what the canvas reports. *)
Definition _render_current_page (self : App Doc) (stored : option float)
    (winfo_width winfo_height : Z) : render_outcome :=
  match doc self with
  | None => NotOpen
  | Some d =>
      let c_w := Z.max winfo_width 1 in
      let c_h := Z.max winfo_height 1 in
      if (c_w <=? 1)%Z || (c_h <=? 1)%Z then Deferred
      else
        let fitted :=
          if auto_fit self then
            let padding := 16%Z in
            let target_w := Z.max (c_w - padding * 2) 100 in
            match float_of_int target_w with
            | Raise _ => None
            | Ok tw =>
                let width := page_rect_width d (page_index self) in
                if (width =? 0)%float then Some None
                else Some (Some (tw / width)%float)
            end
          else Some (Some match stored with
                          | Some b => b
                          | None => 1.0%float
                          end) in
        match fitted with
        | None => TooLarge
        | Some None => ZeroDivision
        | Some (Some base) =>
            let new_scale := (base * zoom_level self)%float in
            let '(w, h) := pixmap_size d (page_index self) new_scale in
            let x_off := ((c_w - w) / 2)%Z in
            let y_off := Z.max ((c_h - h) / 2) 0 in
            Painted
              (mkApp (doc self) (page_index self) new_scale (zoom_level self)
                     (auto_fit self) (Some (w, h)) None None
                     (preserve_text self) (remove_kerning self)
                     (remove_background self) (convert_grayscale self))
              (mkLayout base (x_off, y_off))
        end
  end.

(** The state a handler leaves when it ends with a call of
    [_render_current_page]: the painted state, or the state as it was when
    nothing is painted (the rendering is put off, or raises). *)
Definition rendered (self : App Doc) (stored : option float)
    (winfo_width winfo_height : Z) : App Doc :=
  match _render_current_page self stored winfo_width winfo_height with
  | Painted self' _ => self'
  | _ => self
  end.

(** *** Opening a file ([open_pdf]) *)

Definition set_doc (self : App Doc) (d : option Doc) : App Doc :=
  mkApp d (page_index self) (scale self) (zoom_level self) (auto_fit self)
        (photo self) (sel_start self) (sel_end self) (preserve_text self)
        (remove_kerning self) (remove_background self)
        (convert_grayscale self).

(** [path] is the argument, or the answer of the file dialog (empty when
    cancelled); [opened] is the document [fitz.open(path)] returns, if it
    returns one.  The result is the state, the list of recent files and
    whether the error box was shown. *)
Definition open_pdf (absolute : str -> str) (self : App Doc)
    (recent_files : list str) (path : str) (opened : option Doc)
    (stored : option float) (winfo_width winfo_height : Z)
  : App Doc * list str * bool :=
  match path with
  | [] => (self, recent_files, false)
  | _ =>
      match opened with
      | None => (set_doc self None, recent_files, true)
      | Some d =>
          let self := set_page (set_doc self (Some d)) 0 in
          let recent_files := _add_to_recent absolute recent_files path in
          match _render_current_page self stored winfo_width winfo_height with
          | Painted self' _ => (self', recent_files, false)
          | NotOpen | Deferred => (self, recent_files, false)
          | ZeroDivision | TooLarge => (set_doc self None, recent_files, true)
          end
      end
  end.

(** *** Selecting with the mouse *)

Definition _point_inside_image (self : App Doc) (x y : Z) : bool :=
  match photo self with
  | None => false
  | Some (w, h) => (0 <=? x)%Z && (x <? w)%Z && (0 <=? y)%Z && (y <? h)%Z
  end.

(** [origin] is the attribute [img_origin] if it exists. *)
Definition _on_mouse_down (self : App Doc) (origin : option (Z * Z))
    (event : MouseEvent) : App Doc :=
  match doc self, origin with
  | Some _, Some (ox, oy) =>
      let mx := (ev_x event - ox)%Z in
      let my := (ev_y event - oy)%Z in
      if negb (_point_inside_image self mx my) then self
      else
        let start := (Z.max 0 mx, Z.max 0 my) in
        set_selection self (Some start) (Some start)
  | _, _ => self
  end.

Definition _on_mouse_drag (self : App Doc) (origin : option (Z * Z))
    (event : MouseEvent) : App Doc :=
  match sel_start self, origin with
  | Some _, Some (ox, oy) =>
      set_selection self (sel_start self)
        (Some (ev_x event - ox, ev_y event - oy)%Z)
  | _, _ => self
  end.

(** The rectangle [_draw_selection] creates on the canvas, if any. *)
Definition _draw_selection (self : App Doc) (origin : option (Z * Z))
  : option (Z * Z * Z * Z) :=
  match sel_start self, sel_end self with
  | Some (sx0, sy0), Some (sx1, sy1) =>
      let '(cx0, cy0, cx1, cy1) :=
        match photo self with
        | Some (w, h) =>
            (Z.min (Z.max 0 sx0) w, Z.min (Z.max 0 sy0) h,
             Z.min (Z.max 0 sx1) w, Z.min (Z.max 0 sy1) h)
        | None => (sx0, sy0, sx1, sy1)
        end in
      let '(rx0, ry0) := (Z.min cx0 cx1, Z.min cy0 cy1) in
      let '(rx1, ry1) := (Z.max cx0 cx1, Z.max cy0 cy1) in
      let '(ox, oy) := match origin with
                       | Some o => o
                       | None => (0, 0)%Z
                       end in
      Some (rx0 + ox, ry0 + oy, rx1 + ox, ry1 + oy)%Z
  | _, _ => None
  end.

End Window.

(** The state of [app_at_scale] before any selection is made. *)
Definition app_idle : App unit :=
  mkApp (Some tt) 0 1.0 1.0 true (Some (10, 10)%Z) None None
        true false false false.

(** The page index designates a page of the open document. *)
Definition page_in_range {Doc : Type} (page_count : Doc -> Z)
    (self : App Doc) : Prop :=
  match doc self with
  | Some d => (0 <= page_index self < page_count d)%Z
  | None => True
  end.

(** A page 100 points wide, rendered on 10 x 10 pixels. *)
Definition page_100 (d : unit) (index : Z) : float := 100.0.
Definition pixmap_10 (d : unit) (index : Z) (s : float) : Z * Z := (10, 10)%Z.

(** * Properties *)

Unset Implicit Arguments.

(** ** Comparisons of floats *)

Lemma SFcompare_Lt_Gt (a b : spec_float) :
  SFcompare a b = Some Lt -> SFcompare b a = Some Gt.
Proof.
  assert (A : forall m n,
             Pos.compare_cont Eq n m = CompOpp (Pos.compare_cont Eq m n)).
  { intros. rewrite Pos.compare_cont_antisym. reflexivity. }
  destruct a as [sa| [] | | [] ma ea], b as [sb| [] | | [] mb eb];
    simpl; try congruence; intros H; f_equal;
    rewrite (Z.compare_antisym ea eb);
    destruct (ea ?= eb)%Z eqn:E; simpl in *; try congruence;
    rewrite (A ma mb); injection H as H.
  - apply (f_equal CompOpp) in H. rewrite CompOpp_involutive in H.
    now rewrite H.
  - now rewrite H.
Qed.

Lemma ltb_leb (a b : float) : (a <? b)%float = true -> (a <=? b)%float = true.
Proof.
  rewrite FloatAxioms.ltb_spec, FloatAxioms.leb_spec. unfold SFltb, SFleb.
  destruct (SFcompare _ _) as [[]|]; congruence.
Qed.

Lemma ltb_not_leb (a b : float) :
  (a <? b)%float = true -> (b <=? a)%float = false.
Proof.
  rewrite FloatAxioms.ltb_spec, FloatAxioms.leb_spec. unfold SFltb, SFleb. intros H.
  destruct (SFcompare (Prim2SF a) (Prim2SF b)) as [[]|] eqn:E; try congruence.
  now rewrite (SFcompare_Lt_Gt _ _ E).
Qed.

Lemma clamp_in_range (z : float) :
  zoom_in_range (py_max 0.1 (py_min 10.0 z)) = true.
Proof.
  unfold py_max, py_min, zoom_in_range.
  destruct (z <? 10.0)%float eqn:Hhi.
  - destruct (0.1 <? z)%float eqn:Hlo.
    + now rewrite (ltb_leb _ _ Hlo), (ltb_leb _ _ Hhi).
    + reflexivity.
  - reflexivity.
Qed.

(** Two floats that compare equal are the same float, signed zeros and
    NaN apart. *)
Lemma SFcompare_Eq (a b : spec_float) :
  SFcompare a b = Some Eq ->
  a = b \/ exists sa sb, a = S754_zero sa /\ b = S754_zero sb.
Proof.
  destruct a as [sa|sa| |sa ma ea], b as [sb|sb| |sb mb eb];
    cbn [SFcompare]; intros H; try discriminate H;
    try (destruct sa; discriminate H); try (destruct sb; discriminate H).
  - right. eauto.
  - left. destruct sa, sb; try discriminate H; reflexivity.
  - left. destruct sa, sb; try discriminate H;
      (destruct (ea ?= eb)%Z eqn:E; try discriminate H;
       apply Z.compare_eq in E as ->; injection H as H;
       try (apply (f_equal CompOpp) in H; cbn [CompOpp] in H;
            rewrite CompOpp_involutive in H);
       change (PosDef.Pos.compare_cont Eq ma mb) with (ma ?= mb)%positive in H;
       apply Pos.compare_eq in H as ->; reflexivity).
Qed.

Lemma in_range_not_zero (z : float) (s : bool) :
  zoom_in_range z = true -> Prim2SF z <> S754_zero s.
Proof.
  unfold zoom_in_range. intros H E. apply andb_true_iff in H as [H _].
  rewrite FloatAxioms.leb_spec, E in H. destruct s; vm_compute in H;
    discriminate.
Qed.

Lemma eqb_in_range (x z : float) :
  zoom_in_range z = true -> (x =? z)%float = true -> x = z.
Proof.
  intros Hz H. rewrite FloatAxioms.eqb_spec in H. unfold SFeqb in H.
  destruct (SFcompare (Prim2SF x) (Prim2SF z)) as [[]|] eqn:C;
    try discriminate.
  apply SFcompare_Eq in C as [C|(sa & sb & _ & C)].
  - rewrite <- (SF2Prim_Prim2SF x), <- (SF2Prim_Prim2SF z). now rewrite C.
  - now apply in_range_not_zero in C.
Qed.

Lemma eqb_refl_in_range (z : float) :
  zoom_in_range z = true -> (z =? z)%float = true.
Proof.
  unfold zoom_in_range. intros H. apply andb_true_iff in H as [H _].
  rewrite FloatAxioms.leb_spec in H. rewrite FloatAxioms.eqb_spec.
  unfold SFeqb, SFleb in *.
  destruct (Prim2SF z) as [s| [] | | [] m e]; try reflexivity;
    try (vm_compute in H; discriminate);
    cbn [SFcompare]; rewrite Z.compare_refl, Pos.compare_cont_refl;
    reflexivity.
Qed.

(** ** The zoom level *)

(** C10: started from a zoom level in [0.1, 10.0], [_on_zoom] leaves a zoom
    level in [0.1, 10.0].  With a document open, a turn of the wheel
    upwards stores the old level times 1.1, clamped to [0.1, 10.0], and a
    turn downwards the old level times 0.9, clamped.  A re-render is asked
    for exactly when the stored level has changed; fitting is then
    switched off; otherwise the state is untouched. *)
Theorem on_zoom_keeps_range (Doc : Type) (self : App Doc) (event : Event) :
  zoom_in_range (zoom_level self) = true ->
  let '(self', rerender) := _on_zoom self event in
  zoom_in_range (zoom_level self') = true
  /\ (rerender = true ->
      (exists zoom_factor,
          (zoom_factor = 1.1%float \/ zoom_factor = 0.9%float)
          /\ zoom_level self'
             = py_max 0.1 (py_min 10.0 (zoom_level self * zoom_factor)))
      /\ (zoom_level self' =? zoom_level self)%float = false
      /\ auto_fit self' = false)
  /\ (rerender = false -> self' = self)
  /\ (doc self <> None ->
      (num event =? 4)%Z || (delta event >? 0)%Z = true ->
      zoom_level self'
      = py_max 0.1 (py_min 10.0 (zoom_level self * 1.1)))
  /\ (doc self <> None ->
      (num event =? 4)%Z || (delta event >? 0)%Z = false ->
      (num event =? 5)%Z || (delta event <? 0)%Z = true ->
      zoom_level self'
      = py_max 0.1 (py_min 10.0 (zoom_level self * 0.9)))
  /\ rerender = negb (zoom_level self' =? zoom_level self)%float.
Proof.
  intros Hin. unfold _on_zoom.
  destruct (doc self) as [d|];
    [|repeat split; auto; try discriminate; try congruence;
      now rewrite (eqb_refl_in_range _ Hin)].
  set (up := (num event =? 4)%Z || (delta event >? 0)%Z).
  set (down := (num event =? 5)%Z || (delta event <? 0)%Z).
  destruct up;
    [|destruct down;
      [|repeat split; auto; try discriminate;
        now rewrite (eqb_refl_in_range _ Hin)]].
  all: match goal with
       | |- context [negb (?n =? _)%float] =>
           destruct (n =? zoom_level self)%float eqn:E
       end; cbn [negb zoom_level auto_fit].
  all: repeat split; auto; try discriminate; try apply clamp_in_range;
    try (eexists; split; [|reflexivity]; now auto);
    try (intros _ _; symmetry; now apply eqb_in_range);
    try (intros _ _ _; symmetry; now apply eqb_in_range);
    try (now rewrite (eqb_refl_in_range _ Hin));
    try (now rewrite E).
Qed.

Lemma on_zoom_keeps_range_witness :
  zoom_in_range
    (zoom_level (fst (_on_zoom (app_at_scale 1.0 true false false false)
                               (mkEvent 4 0)))) = true.
Proof.
  pose proof (on_zoom_keeps_range unit (app_at_scale 1.0 true false false false)
                (mkEvent 4 0) eq_refl) as H.
  destruct (_on_zoom _ _). exact (proj1 H).
Defined.

(** ** The selection rectangle in PDF space *)

Lemma selection_coords_none (Doc : Type) (self : App Doc) :
  _get_selection_rect_image_coords self = None <-> ~ has_selection self.
Proof.
  unfold _get_selection_rect_image_coords, has_selection, clamp_px.
  destruct (sel_start self) as [[sx0 sy0]|];
    [|split; [intros _ (?&?&?&?&?&?&H&_); discriminate|reflexivity]].
  destruct (sel_end self) as [[sx1 sy1]|];
    [|split; [intros _ (?&?&?&?&?&?&_&H&_); discriminate|reflexivity]].
  destruct (photo self) as [[w h]|];
    [|split; [intros _ (?&?&?&?&?&?&_&_&H&_); discriminate|reflexivity]].
  cbv zeta.
  remember (Z.min (Z.max 0 sx0) w) as a0 eqn:Ea0.
  remember (Z.min (Z.max 0 sx1) w) as a1 eqn:Ea1.
  remember (Z.min (Z.max 0 sy0) h) as b0 eqn:Eb0.
  remember (Z.min (Z.max 0 sy1) h) as b1 eqn:Eb1.
  destruct (_ || _) eqn:E.
  - split; [intros _|reflexivity].
    apply orb_true_iff in E. rewrite !Z.ltb_lt in E.
    intros (a&b&c&d&w'&h'&H1&H2&H3&H4&H5).
    injection H1 as <- <-. injection H2 as <- <-. injection H3 as <- <-.
    rewrite <- Ea0, <- Ea1 in H4. rewrite <- Eb0, <- Eb1 in H5.
    clear Ea0 Ea1 Eb0 Eb1. lia.
  - split; [discriminate|]. intros H. exfalso. apply H.
    apply orb_false_iff in E. rewrite !Z.ltb_ge in E.
    exists sx0, sy0, sx1, sy1, w, h.
    rewrite <- Ea0, <- Ea1, <- Eb0, <- Eb1. clear Ea0 Ea1 Eb0 Eb1.
    repeat split; lia.
Qed.

Lemma digits2_pos_bounds (m : positive) :
  (2 ^ (Z.pos (digits2_pos m) - 1) <= Z.pos m < 2 ^ Z.pos (digits2_pos m))%Z.
Proof.
  induction m as [m IH|m IH|]; cbn [digits2_pos].
  - rewrite Pos2Z.inj_succ.
    replace (Z.succ (Z.pos (digits2_pos m)) - 1)%Z
      with (Z.succ (Z.pos (digits2_pos m) - 1))%Z by lia.
    rewrite !Z.pow_succ_r by lia. lia.
  - rewrite Pos2Z.inj_succ.
    replace (Z.succ (Z.pos (digits2_pos m)) - 1)%Z
      with (Z.succ (Z.pos (digits2_pos m) - 1))%Z by lia.
    rewrite !Z.pow_succ_r by lia. lia.
  - cbn. lia.
Qed.





Lemma clamp_bounds (v size : Z) :
  (Z.min (Z.max 0 v) size <= size
   /\ (0 <= size -> 0 <= Z.min (Z.max 0 v) size)
   /\ (size < 0 -> Z.min (Z.max 0 v) size = size))%Z.
Proof. lia. Qed.





(** Rounding alone separates the two as well: 49 pixels at scale 49 are
    mapped just below 1 point. *)
Example selection_pdf_rect_rounding :
  (49 * (1.0 / py_max 49 1e-6) <? 49 / 49)%float = true.
Proof. reflexivity. Qed.

(** ** The export path *)

Section ExportPath.

Variable Doc : Type.
Variable rect_width rect_height : Rect -> float.
Variable rect_true : Rect -> bool.
Variable get_svg_image : Page Doc -> bool -> str.


Lemma svg_from_selection_passes (self : App Doc) (page : Page Doc) :
  clipped_page rect_width rect_height rect_true self = Ok page ->
  _svg_from_selection rect_width rect_height rect_true get_svg_image self
  = rewrite_passes (preserve_text self && remove_kerning self)
      (remove_background self) (convert_grayscale self)
      (get_svg_image page (negb (preserve_text self))).
Proof.
  unfold _svg_from_selection, rewrite_passes, when.
  intros ->. simpl.
  destruct (preserve_text self && remove_kerning self); simpl.
  - destruct (_remove_svg_kerning _); simpl; [|reflexivity].
    destruct (remove_background self), (convert_grayscale self); simpl;
      try reflexivity;
      destruct (_convert_svg_grayscale _); reflexivity.
  - destruct (remove_background self), (convert_grayscale self); simpl;
      try reflexivity;
      destruct (_convert_svg_grayscale _); reflexivity.
Qed.

Lemma svg_from_selection_guard (self : App Doc) (e : exn) :
  clipped_page rect_width rect_height rect_true self = Raise e ->
  _svg_from_selection rect_width rect_height rect_true get_svg_image self
  = Raise e.
Proof.
  unfold _svg_from_selection. now intros ->.
Qed.

Lemma clipped_page_ok (self : App Doc) (d : Doc) (clip : Rect) :
  doc self = Some d ->
  _selection_pdf_rect self = Ok (Some clip) ->
  rect_true clip = true ->
  (rect_width clip <=? 0)%float = false ->
  (rect_height clip <=? 0)%float = false ->
  clipped_page rect_width rect_height rect_true self
  = Ok (mkPage (rect_width clip) (rect_height clip)
          [(mkRect 0 0 (rect_width clip) (rect_height clip), d,
            page_index self, clip)]).
Proof.
  intros Hd Hc Ht Hw Hh. unfold clipped_page.
  rewrite Hd, Hc. simpl. rewrite Ht, Hw, Hh. reflexivity.
Qed.

(** C2: for a selection whose clip rectangle has positive width and
    height, the new document has one page of exactly that width and height,
    the source page is shown once, clipped to the selection, in the target
    rectangle (0, 0, width, height), and the SVG returned is rendered from
    that page. *)
Theorem svg_page_sized_to_clip (self : App Doc) (d : Doc) (clip : Rect) :
  doc self = Some d ->
  _selection_pdf_rect self = Ok (Some clip) ->
  rect_true clip = true ->
  (0 <? rect_width clip)%float = true ->
  (0 <? rect_height clip)%float = true ->
  let page :=
    mkPage (rect_width clip) (rect_height clip)
      [(mkRect 0 0 (rect_width clip) (rect_height clip), d,
        page_index self, clip)] in
  clipped_page rect_width rect_height rect_true self = Ok page
  /\ _svg_from_selection rect_width rect_height rect_true get_svg_image self
     = rewrite_passes (preserve_text self && remove_kerning self)
         (remove_background self) (convert_grayscale self)
         (get_svg_image page (negb (preserve_text self))).
Proof.
  intros Hd Hc Ht Hw Hh page.
  assert (E : clipped_page rect_width rect_height rect_true self = Ok page).
  { apply clipped_page_ok; auto using ltb_not_leb. }
  split; [exact E|]. now apply svg_from_selection_passes.
Qed.

(** C8: whatever the toggles, the SVG rendered from the clipped page goes
    through the kerning merge (only when both text preservation and kerning
    removal are on), then the background removal, then the grayscale
    conversion, in this order, each only when enabled. *)
Theorem svg_passes_in_order (self : App Doc) (page : Page Doc)
    (text kerning background grayscale : bool) :
  clipped_page rect_width rect_height rect_true self = Ok page ->
  preserve_text self = text -> remove_kerning self = kerning ->
  remove_background self = background -> convert_grayscale self = grayscale ->
  _svg_from_selection rect_width rect_height rect_true get_svg_image self
  = (svg1 <- when (text && kerning) _remove_svg_kerning
               (get_svg_image page (negb text)) ;;
     svg2 <- when background (fun s => Ok (_remove_svg_background s)) svg1 ;;
     when grayscale _convert_svg_grayscale svg2).
Proof.
  intros E <- <- <- <-. exact (svg_from_selection_passes self page E).
Qed.

End ExportPath.

Lemma svg_page_sized_to_clip_witness :
  clipped_page width_of height_of nonzero_rect
    (app_at_scale 1.0 true false false false)
  = Ok (mkPage 1 1 [(mkRect 0 0 1 1, tt, 0%Z, mkRect 0 0 1 1)]).
Proof.
  exact (proj1 (svg_page_sized_to_clip unit width_of height_of nonzero_rect
                  render_css_text (app_at_scale 1.0 true false false false)
                  tt (mkRect 0 0 1 1)
                  eq_refl eq_refl eq_refl eq_refl eq_refl)).
Defined.

Lemma svg_passes_in_order_witness :
  _svg_from_selection width_of height_of nonzero_rect render_css_text
    (app_at_scale 1.0 true true true false)
  = Ok (render_css_text
          (mkPage 1 1 [(mkRect 0 0 1 1, tt, 0%Z, mkRect 0 0 1 1)]) false).
Proof.
  pose proof (svg_passes_in_order unit width_of height_of nonzero_rect
                render_css_text (app_at_scale 1.0 true true true false)
                (mkPage 1 1 [(mkRect 0 0 1 1, tt, 0%Z, mkRect 0 0 1 1)])
                true true true false
                eq_refl eq_refl eq_refl eq_refl eq_refl) as H.
  rewrite H. vm_compute. reflexivity.
Defined.

(** ** Strings *)

Lemma starts_with_app (p s : str) : starts_with p (p ++ s) = true.
Proof.
  induction p as [|a p IH]; simpl; [reflexivity|].
  now rewrite Ascii.eqb_refl.
Qed.

Lemma starts_with_spec (p s : str) :
  starts_with p s = true <-> exists post, s = p ++ post.
Proof.
  split.
  - revert s. induction p as [|a p IH]; intros s H.
    + now exists s.
    + destruct s as [|b s]; simpl in H; [discriminate|].
      apply andb_true_iff in H as [Hab H]. apply Ascii.eqb_eq in Hab as ->.
      destruct (IH _ H) as [post ->]. now exists post.
  - intros [post ->]. apply starts_with_app.
Qed.

(** [sub in s] holds exactly when [sub] occurs somewhere in [s]. *)
Lemma contains_spec (sub s : str) :
  contains sub s = true <-> exists pre post, s = pre ++ sub ++ post.
Proof.
  split.
  - induction s as [|c s IH]; simpl; intros H.
    + rewrite orb_false_r in H. apply starts_with_spec in H as [post E].
      now exists [], post.
    + apply orb_true_iff in H as [H|H].
      * apply starts_with_spec in H as [post E]. now exists [], post.
      * destruct (IH H) as (pre & post & ->). now exists (c :: pre), post.
  - intros (pre & post & ->).
    induction pre as [|c pre IH]; simpl.
    + pose proof (starts_with_app sub post) as H.
      destruct (sub ++ post); simpl; now rewrite H.
    + rewrite IH. apply orb_true_r.
Qed.



Lemma filter_all_true {A : Type} (f : A -> bool) (l : list A) :
  (forall x, In x l -> f x = true) -> filter f l = l.
Proof.
  induction l as [|a l IH]; intros H; simpl; [reflexivity|].
  rewrite (H a (or_introl eq_refl)). f_equal. apply IH.
  intros x Hx. apply H. now right.
Qed.

(** ** The matcher *)

Module ReFacts.
Import Re.

Lemma backtrack_some {A : Type} (k lo : nat) (try : nat -> option A) (r : A) :
  backtrack k lo try = Some r ->
  exists j, lo <= j <= k /\ try j = Some r.
Proof.
  induction k as [|k IH]; simpl.
  - destruct (0 <? lo) eqn:E; [discriminate|].
    apply Nat.ltb_ge in E. destruct (try 0) eqn:T; [|discriminate].
    intros [= ->]. exists 0. split; [lia|assumption].
  - destruct (S k <? lo) eqn:E; [discriminate|].
    apply Nat.ltb_ge in E. destruct (try (S k)) eqn:T.
    + intros [= ->]. exists (S k). split; [lia|assumption].
    + intros H. destruct (IH H) as (j & Hj & Tj). exists j.
      split; [lia|assumption].
Qed.

Lemma backtrack_none {A : Type} (k lo : nat) (try : nat -> option A) :
  backtrack k lo try = None <-> forall j, lo <= j <= k -> try j = None.
Proof.
  induction k as [|k IH]; simpl.
  - destruct (0 <? lo) eqn:E.
    + apply Nat.ltb_lt in E. split; [intros _ j Hj; lia|reflexivity].
    + apply Nat.ltb_ge in E. destruct (try 0) eqn:T.
      * split; [discriminate|]. intros H. rewrite <- T. apply H. lia.
      * split; [|reflexivity]. intros _ j Hj.
        replace j with 0 by lia. assumption.
  - destruct (S k <? lo) eqn:E.
    + apply Nat.ltb_lt in E. split; [intros _ j Hj; lia|reflexivity].
    + apply Nat.ltb_ge in E. destruct (try (S k)) eqn:T.
      * split; [discriminate|]. intros H. rewrite <- T. apply H. lia.
      * rewrite IH. split; intros H j Hj.
        -- destruct (Nat.eq_dec j (S k)) as [->|Hne]; [assumption|].
           apply H. lia.
        -- apply H. lia.
Qed.

(** The first success from the top is the one returned. *)
Lemma backtrack_top {A : Type} (k lo : nat) (try : nat -> option A) (r : A) :
  lo <= k -> try k = Some r -> backtrack k lo try = Some r.
Proof.
  intros Hlo T. destruct k; simpl.
  - replace (0 <? lo) with false by (symmetry; apply Nat.ltb_ge; lia).
    now rewrite T.
  - replace (S k <? lo) with false by (symmetry; apply Nat.ltb_ge; lia).
    now rewrite T.
Qed.

Lemma span_le (f : ascii -> bool) (s : str) : span f s <= List.length s.
Proof.
  induction s as [|c s IH]; simpl; [lia|]. destruct (f c); simpl; lia.
Qed.

Lemma run_le (a : atom) (s : str) : run a s <= List.length s.
Proof.
  unfold run. pose proof (span_le (cls a) s).
  destruct (rmax a); lia.
Qed.

(** A match never runs past the end of the text. *)
Lemma match_here_length (p : pattern) (s : str) (n : nat) (gs : list str) :
  match_here p s = Some (n, gs) -> n <= List.length s.
Proof.
  revert s n gs. induction p as [|a p IH]; intros s n gs; simpl.
  - intros [= <- <-]. lia.
  - intros H. apply backtrack_some in H as (k & Hk & T).
    destruct (match_here p (skipn k s)) as [[m gs']|] eqn:E; [|discriminate].
    injection T as <- <-. apply IH in E. rewrite length_skipn in E.
    pose proof (run_le a s). lia.
Qed.

Lemma search_none (p : pattern) (s : str) :
  search p s = None <->
  forall pre post, s = pre ++ post -> match_here p post = None.
Proof.
  induction s as [|c s IH]; simpl.
  - destruct (match_here p []) as [[n gs]|] eqn:E.
    + split; [discriminate|]. intros H.
      specialize (H [] [] eq_refl). congruence.
    + split; [|reflexivity]. intros _ pre post H.
      symmetry in H. apply app_eq_nil in H as [-> ->]. assumption.
  - destruct (match_here p (c :: s)) as [[n gs]|] eqn:E.
    + split; [discriminate|]. intros H.
      specialize (H [] (c :: s) eq_refl). congruence.
    + rewrite IH. split; intros H pre post Hs.
      * destruct pre as [|c' pre]; simpl in Hs.
        -- now subst post.
        -- injection Hs as -> Hs. now apply (H pre).
      * apply (H (c :: pre)). simpl. now rewrite Hs.
Qed.

(** Where the pattern is not found, [re.sub] returns its input. *)
Lemma sub_not_found (p : pattern) (repl : match_obj -> result str) (s : str) :
  search p s = None -> sub p repl s = Ok s.
Proof.
  unfold sub. induction s as [|c s IH]; simpl; [reflexivity|].
  destruct (match_here p (c :: s)) as [[n gs]|] eqn:E; [discriminate|].
  intros H. now rewrite (IH H).
Qed.

(** [re.sub] raises only what the replacement function raises. *)
Lemma sub_from_raise (p : pattern) (repl : match_obj -> result str)
    (k : nat) (s : str) (e : exn) :
  sub_from p repl k s = Raise e -> exists m, repl m = Raise e.
Proof.
  revert k. induction s as [|c s IH]; intros k; simpl; [discriminate|].
  destruct k as [|k]; [|apply IH].
  destruct (match_here p (c :: s)) as [[[|n] gs]|].
  - destruct (sub_from p repl 0 s) eqn:E; simpl; [discriminate|].
    intros [= <-]. now apply (IH 0).
  - destruct (repl _) eqn:R; simpl.
    + destruct (sub_from p repl n s) eqn:E; simpl; [discriminate|].
      intros [= <-]. now apply (IH n).
    + intros [= <-]. eauto.
  - destruct (sub_from p repl 0 s) eqn:E; simpl; [discriminate|].
    intros [= <-]. now apply (IH 0).
Qed.

End ReFacts.

(** ** What the passes can raise *)

Lemma ahead_raise (bad : bool) (ts : list Re.token) (e : exn) :
  Re.ahead bad ts = Raise e -> is_runtime_error e = false.
Proof.
  destruct ts; cbn [Re.ahead]; [|discriminate].
  destruct bad; [|discriminate]. now intros [= <-].
Qed.

Lemma getuntil_raise (bad : bool) (ts : list Re.token) (name : str) (e : exn) :
  Re.getuntil bad ts name = Raise e -> is_runtime_error e = false.
Proof.
  revert name. induction ts as [|t ts IH]; intros name; cbn [Re.getuntil].
  - now intros [= <-].
  - destruct (Re.ahead bad ts) eqn:A; cbn [bind];
      [|intros [= <-]; eapply ahead_raise, A].
    destruct t as [c|c]; [|apply IH].
    destruct (Ascii.eqb c ">"); [|apply IH].
    destruct name; [now intros [= <-]|discriminate].
Qed.

Lemma addgroup_raise (n : nat) (index : Z) (e : exn) :
  Re.addgroup n index = Raise e -> is_runtime_error e = false.
Proof.
  unfold Re.addgroup. destruct (_ <? _)%Z; [|discriminate]. now intros [= <-].
Qed.

Lemma group_of_name_raise (n : nat) (name : str) (e : exn) :
  Re.group_of_name n name = Raise e -> is_runtime_error e = false.
Proof.
  unfold Re.group_of_name. destruct (Re.is_identifier name);
    [now intros [= <-]|].
  destruct (py_int name); [|now intros [= <-]].
  destruct (_ <? 0)%Z; [now intros [= <-]|].
  destruct (_ <=? _)%Z; [now intros [= <-]|]. apply addgroup_raise.
Qed.

Lemma parse_tokens_raise (n : nat) (bad : bool) (fuel : nat) :
  forall (ts : list Re.token) (e : exn),
    Re.parse_tokens n bad fuel ts = Raise e -> is_runtime_error e = false.
Proof.
  induction fuel as [|fuel IH]; intros ts e;
    (destruct ts as [|t ts1]; [discriminate|]); cbn [Re.parse_tokens].
  - now intros [= <-].
  - cbv zeta.
    repeat match goal with
           | |- Raise _ = Raise _ -> _ => intros [= <-]; reflexivity
           | |- Ok _ = Raise _ -> _ => discriminate
           | |- bind ?c _ = Raise _ -> _ =>
               let E := fresh "E" in
               destruct c eqn:E; cbn [bind];
               [|intros [= <-];
                 eauto using ahead_raise, getuntil_raise, addgroup_raise,
                   group_of_name_raise]
           | |- (if ?c then _ else _) = Raise _ -> _ => destruct c
           | |- match ?x with _ => _ end = Raise _ -> _ => destruct x
           end.
Qed.

Lemma parse_template_raise (n : nat) (t : str) (e : exn) :
  Re.parse_template n t = Raise e -> is_runtime_error e = false.
Proof.
  unfold Re.parse_template. destruct (Re.tokens t) as [ts bad].
  destruct (Re.ahead bad ts) eqn:A; cbn [bind].
  - apply parse_tokens_raise.
  - intros [= <-]. eapply ahead_raise, A.
Qed.

Lemma sub_template_raise (p : Re.pattern) (t s : str) (e : exn) :
  Re.sub_template p t s = Raise e -> is_runtime_error e = false.
Proof.
  unfold Re.sub_template. destruct (existsb _ t).
  - destruct (Re.parse_template _ t) eqn:P; cbn [bind].
    + intros H. apply ReFacts.sub_from_raise in H as [m H]. discriminate.
    + intros [= <-]. eapply parse_template_raise, P.
  - intros H. apply ReFacts.sub_from_raise in H as [m H]. discriminate.
Qed.

Lemma remove_svg_kerning_raise (svg : str) (e : exn) :
  _remove_svg_kerning svg = Raise e -> is_runtime_error e = false.
Proof.
  intros H. apply ReFacts.sub_from_raise in H as [m H].
  unfold merge_text_spans in H.
  destruct (Re.search _ _); [|discriminate].
  destruct (Re.search _ _); [|discriminate].
  destruct (Re.search _ _); [|discriminate].
  destruct (split_ws _); [discriminate|].
  destruct (split_ws _); [discriminate|].
  destruct (Re.sub_template _ _ _) eqn:E; simpl in H.
  - now apply sub_template_raise in H.
  - injection H as <-. now apply sub_template_raise in E.
Qed.

Lemma py_int_raise (s : str) (e : exn) : py_int s = Raise e -> e = ValueError.
Proof.
  unfold py_int.
  match goal with
  | |- context [let '(n, b) := ?x in _] => destruct x as [neg body]
  end.
  destruct (parse_digits 0 false body); [|now intros [= <-]].
  destruct (_ <? _)%Z; [now intros [= <-]|discriminate].
Qed.

Lemma luminance_raise (r g b : Z) (e : exn) :
  luminance r g b = Raise e -> is_runtime_error e = false.
Proof.
  unfold luminance, float_of_int, int_of_float.
  repeat match goal with
         | |- context [if ?c then _ else _] => destruct c; simpl
         end; try (now intros [= <-]).
  destruct (Prim2SF _); try discriminate; now intros [= <-].
Qed.

Lemma convert_svg_grayscale_raise (svg : str) (e : exn) :
  _convert_svg_grayscale svg = Raise e -> is_runtime_error e = false.
Proof.
  assert (A : forall m, rgb_to_gray m = Raise e -> is_runtime_error e = false).
  { intros m. unfold rgb_to_gray.
    destruct (split_on _ _) as [|vr [|vg [|vb [|]]]]; try discriminate.
    destruct (py_int (strip vr)) eqn:Er; simpl;
      [|intros [= <-]; now rewrite (py_int_raise _ _ Er)].
    destruct (py_int (strip vg)) eqn:Eg; simpl;
      [|intros [= <-]; now rewrite (py_int_raise _ _ Eg)].
    destruct (py_int (strip vb)) eqn:Eb; simpl;
      [|intros [= <-]; now rewrite (py_int_raise _ _ Eb)].
    destruct (luminance _ _ _) eqn:El; simpl; [discriminate|].
    intros [= <-]. now apply luminance_raise in El. }
  assert (B : forall m, hex_to_gray m = Raise e -> is_runtime_error e = false).
  { intros m. unfold hex_to_gray.
    destruct (fst_group m) as [|r1 [|r2 [|g1 [|g2 [|b1 [|b2 [|]]]]]]];
      try discriminate.
    destruct (luminance _ _ _) eqn:El; simpl; [discriminate|].
    intros [= <-]. now apply luminance_raise in El. }
  unfold _convert_svg_grayscale, gray_rgb_pass, gray_hex_pass.
  destruct (Re.sub rgb_pattern _ _) eqn:E; simpl.
  - intros H. apply ReFacts.sub_from_raise in H as [m H]. eauto.
  - intros [= <-]. apply ReFacts.sub_from_raise in E as [m H]. eauto.
Qed.

Lemma rewrite_passes_raise (k b g : bool) (svg : str) (e : exn) :
  rewrite_passes k b g svg = Raise e -> is_runtime_error e = false.
Proof.
  unfold rewrite_passes, when.
  assert (K : forall s, (if k then _remove_svg_kerning s else Ok s) = Raise e ->
                        is_runtime_error e = false).
  { intros s. destruct k; [|discriminate].
    apply remove_svg_kerning_raise. }
  destruct (if k then _ else _) as [s1|e1] eqn:E1; simpl.
  - destruct b; simpl;
      (destruct g; [apply convert_svg_grayscale_raise|discriminate]).
  - intros [= <-]. eauto.
Qed.

(** ** When the export fails *)

Lemma selection_pdf_rect_raise (Doc : Type) (self : App Doc) (e : exn) :
  _selection_pdf_rect self = Raise e -> is_runtime_error e = false.
Proof.
  unfold _selection_pdf_rect, int_mul_float, float_of_int.
  destruct (_get_selection_rect_image_coords self) as [[[[a b] c] d]|];
    [|discriminate].
  destruct (doc self); [|discriminate].
  repeat match goal with
         | |- context [if ?c then _ else _] => destruct c; simpl
         end; try discriminate; now intros [= <-].
Qed.

Lemma selection_pdf_rect_none (Doc : Type) (self : App Doc) :
  _selection_pdf_rect self = Ok None <->
  doc self = None \/ _get_selection_rect_image_coords self = None.
Proof.
  unfold _selection_pdf_rect, int_mul_float, float_of_int.
  destruct (_get_selection_rect_image_coords self) as [[[[a b] c] d]|];
    [|split; auto].
  destruct (doc self); [|split; auto].
  split; [|intros [H|H]; discriminate].
  repeat match goal with
         | |- context [if ?c then _ else _] => destruct c; simpl
         end; discriminate.
Qed.

Section ExportFailure.

Variable Doc : Type.
Variable rect_width rect_height : Rect -> float.
Variable rect_true : Rect -> bool.
Variable get_svg_image : Page Doc -> bool -> str.


Lemma clipped_page_runtime_error (self : App Doc) :
  (exists msg,
      clipped_page rect_width rect_height rect_true self
      = Raise (RuntimeError msg)) <->
  (doc self = None \/ ~ has_selection self
   \/ exists clip,
        _selection_pdf_rect self = Ok (Some clip)
        /\ clip_refused rect_width rect_height rect_true clip).
Proof.
  unfold clipped_page, clip_refused. split.
  - intros [msg H]. destruct (doc self) as [d|] eqn:Hd; [|now left].
    right. destruct (_selection_pdf_rect self) as [[clip|]|e] eqn:Hc;
      simpl in H.
    + right. exists clip. split; [reflexivity|].
      destruct (rect_true clip); [|now left]. right. simpl in H.
      destruct (rect_width clip <=? 0)%float; [now left|]. right.
      destruct (rect_height clip <=? 0)%float; [reflexivity|discriminate].
    + left. apply selection_pdf_rect_none in Hc as [Hc|Hc]; [congruence|].
      now apply selection_coords_none.
    + injection H as ->. now apply selection_pdf_rect_raise in Hc.
  - intros [Hd|[Hs|(clip & Hc & Hr)]].
    + rewrite Hd. eauto.
    + destruct (doc self) as [d|]; [|eauto].
      apply selection_coords_none in Hs.
      assert (Hn : _selection_pdf_rect self = Ok None)
        by (apply selection_pdf_rect_none; now right).
      rewrite Hn. simpl. eauto.
    + destruct (doc self) as [d|]; [|eauto]. rewrite Hc. simpl.
      destruct (rect_true clip); simpl; [|eauto].
      destruct Hr as [Hr|[Hr|Hr]]; [discriminate| |].
      * rewrite Hr. simpl. eauto.
      * rewrite Hr, orb_true_r. eauto.
Qed.

(** X21: [_svg_from_selection] raises a [RuntimeError] exactly
    when no document is open, or there is no finalized selection of at
    least one pixel in both dimensions, or the guards refuse the mapped
    clip rectangle (it is empty, or its width or its height is not
    positive); then no SVG is produced: the export command and the copy
    command show the warning and do nothing else. *)
Theorem svg_from_selection_runtime_error (self : App Doc) :
  ((exists msg,
       _svg_from_selection rect_width rect_height rect_true get_svg_image self
       = Raise (RuntimeError msg)) <->
   (doc self = None \/ ~ has_selection self
    \/ exists clip,
         _selection_pdf_rect self = Ok (Some clip)
         /\ clip_refused rect_width rect_height rect_true clip))
  /\ (forall msg,
      _svg_from_selection rect_width rect_height rect_true get_svg_image self
      = Raise (RuntimeError msg) ->
      (forall svg,
          _svg_from_selection rect_width rect_height rect_true get_svg_image
            self <> Ok svg)
      /\ (forall path io_ok,
             export_selection_as_svg rect_width rect_height rect_true
               get_svg_image self path io_ok
             = [ShowWarning "Export SVG" (RuntimeError msg)])
      /\ (forall io_ok,
             copy_svg_to_clipboard rect_width rect_height rect_true
               get_svg_image self io_ok
             = [ShowWarning "Copy SVG" (RuntimeError msg)])).
Proof.
  split.
  - rewrite <- clipped_page_runtime_error. split; intros [msg H].
    + destruct (clipped_page rect_width rect_height rect_true self)
        as [page|e] eqn:E.
      * unfold _svg_from_selection in H. rewrite E in H.
        pose proof (svg_from_selection_passes Doc rect_width rect_height
                      rect_true get_svg_image self page E) as P.
        unfold _svg_from_selection in P. rewrite E in P. rewrite P in H.
        apply rewrite_passes_raise in H. discriminate.
      * unfold _svg_from_selection in H. rewrite E in H. simpl in H.
        exists msg. congruence.
    + exists msg. unfold _svg_from_selection. now rewrite H.
  - intros msg H. split; [|split].
    + intros svg. congruence.
    + intros path io_ok. unfold export_selection_as_svg. now rewrite H.
    + intros io_ok. unfold copy_svg_to_clipboard. now rewrite H.
Qed.

End ExportFailure.

Lemma svg_from_selection_runtime_error_witness :
  export_selection_as_svg width_of height_of nonzero_rect render_css_text
    app_closed (lit "out.svg") true
  = [ShowWarning "Export SVG" (RuntimeError "No PDF open")].
Proof.
  destruct (svg_from_selection_runtime_error unit width_of height_of
              nonzero_rect render_css_text app_closed) as [[_ R] W].
  destruct (R (or_introl eq_refl)) as [msg Hmsg].
  destruct (W msg Hmsg) as (_ & E & _).
  rewrite E. f_equal. f_equal.
  vm_compute in Hmsg. now injection Hmsg as <-.
Defined.

(** C9 fails: with a document open, a finalized selection and a clip
    rectangle of positive width and height, the export still raises (a
    [ValueError], reported as a warning, and no SVG) when the grayscale
    pass meets the text [rgb(50%,0,0)] in the rendered page: [rgb_to_gray]
    hands the three fields to [int] without looking at them, although it
    leaves alone a match that does not have three fields. *)
Theorem svg_from_selection_value_error :
  let self := app_at_scale 1.0 true false false true in
  doc self <> None
  /\ has_selection self
  /\ _selection_pdf_rect self = Ok (Some (mkRect 0 0 1 1))
  /\ nonzero_rect (mkRect 0 0 1 1) = true
  /\ (0 <? width_of (mkRect 0 0 1 1))%float = true
  /\ (0 <? height_of (mkRect 0 0 1 1))%float = true
  /\ _svg_from_selection width_of height_of nonzero_rect render_css_text self
     = Raise ValueError
  /\ export_selection_as_svg width_of height_of nonzero_rect render_css_text
       self (lit "out.svg") true
     = [ShowWarning "Export SVG" ValueError]
  /\ _convert_svg_grayscale (lit "rgb(50%,0,0)") = Raise ValueError
  /\ _convert_svg_grayscale (lit "rgb(50%,0)") = Ok (lit "rgb(50%,0)").
Proof.
  cbv zeta. split; [discriminate|]. split.
  - exists 0%Z, 0%Z, 1%Z, 1%Z, 10%Z, 10%Z.
    repeat split; vm_compute; discriminate.
  - repeat split; vm_compute; reflexivity.
Qed.

(** ** Printing and reading integers *)

Lemma digit_char_spec (k : Z) :
  (0 <= k < 10)%Z ->
  is_digit (digit_char k) = true /\ digit_val (digit_char k) = k.
Proof.
  intros H.
  assert (E : (k = 0 \/ k = 1 \/ k = 2 \/ k = 3 \/ k = 4 \/ k = 5 \/ k = 6
               \/ k = 7 \/ k = 8 \/ k = 9)%Z) by lia.
  repeat (destruct E as [->|E]; [split; reflexivity|]).
  subst k. split; reflexivity.
Qed.

Lemma dec_digits_spec (fuel : nat) :
  forall (n : Z) (acc : str),
    (0 <= n < 2 ^ Z.of_nat fuel)%Z -> fuel <> 0 ->
    exists ds,
      dec_digits fuel n acc = ds ++ acc
      /\ ds <> []
      /\ Forall (fun c => is_digit c = true) ds
      /\ forall a seen rest,
           parse_digits a seen (ds ++ rest)
           = parse_digits (a * 10 ^ Z.of_nat (List.length ds) + n)%Z true rest.
Proof.
  induction fuel as [|f IH]; intros n acc Hn Hf; [contradiction|].
  - simpl dec_digits.
    pose proof (Z.mod_pos_bound n 10 eq_refl) as Hm.
    destruct (digit_char_spec _ Hm) as [Hd Hv].
    destruct (n <? 10)%Z eqn:E.
    + apply Z.ltb_lt in E. exists [digit_char (n mod 10)].
      repeat split; [discriminate|auto|].
      intros a seen rest. cbn [app parse_digits List.length]. rewrite Hd, Hv.
      rewrite Z.mod_small by lia. f_equal. lia.
    + apply Z.ltb_ge in E.
      assert (Hq : (0 <= n / 10 < 2 ^ Z.of_nat f)%Z).
      { split; [apply Z.div_pos; lia|].
        apply Z.div_lt_upper_bound; [lia|].
        rewrite Nat2Z.inj_succ, Z.pow_succ_r in Hn by lia. lia. }
      assert (Hf' : f <> 0).
      { intros ->. simpl in Hq. assert (1 <= n / 10)%Z; [|lia].
        apply Z.div_le_lower_bound; lia. }
      destruct (IH (n / 10)%Z (digit_char (n mod 10) :: acc) Hq Hf')
        as (ds & E1 & Hne & Hall & Hp).
      exists (ds ++ [digit_char (n mod 10)]).
      rewrite E1, <- app_assoc. repeat split.
      * destruct ds; discriminate.
      * apply Forall_app. split; [assumption|]. now constructor.
      * intros a seen rest. rewrite <- app_assoc, Hp.
        cbn [app parse_digits]. rewrite Hd, Hv, length_app.
        cbn [List.length]. f_equal.
        rewrite Nat2Z.inj_add, Z.pow_add_r by lia.
        change (10 ^ Z.of_nat 1)%Z with 10%Z.
        pose proof (Z.div_mod n 10). lia.
Qed.

Lemma log2_fuel (n : Z) :
  (0 <= n)%Z -> (0 <= n < 2 ^ Z.of_nat (S (Z.to_nat (Z.log2 n))))%Z.
Proof.
  intros H. split; [assumption|].
  rewrite Nat2Z.inj_succ, Z2Nat.id by apply Z.log2_nonneg.
  destruct (Z.eq_dec n 0) as [->|Hne]; [reflexivity|].
  apply Z.log2_spec. lia.
Qed.

Lemma dec_nonneg_spec (n : Z) :
  (0 <= n)%Z ->
  dec_nonneg n <> []
  /\ Forall (fun c => is_digit c = true) (dec_nonneg n)
  /\ parse_digits 0 false (dec_nonneg n) = Some n.
Proof.
  intros H. unfold dec_nonneg.
  destruct (dec_digits_spec _ n [] (log2_fuel n H) (Nat.neq_succ_0 _))
    as (ds & E & Hne & Hall & Hp).
  rewrite E, app_nil_r. repeat split; auto.
  specialize (Hp 0%Z false []). rewrite app_nil_r in Hp. rewrite Hp.
  cbn [parse_digits]. f_equal.
Qed.

Lemma dec_char_not_space (c : ascii) :
  is_dec_char c = true -> is_space c = false.
Proof.
  destruct c as [[] [] [] [] [] [] [] []]; vm_compute; congruence.
Qed.

Lemma dec_char_not_sep (c : ascii) :
  is_dec_char c = true ->
  Ascii.eqb c "," = false /\ Re.other_than ")" c = true.
Proof.
  destruct c as [[] [] [] [] [] [] [] []]; vm_compute; split; congruence.
Qed.

Lemma digit_is_dec_char (c : ascii) : is_digit c = true -> is_dec_char c = true.
Proof. unfold is_dec_char. now intros ->. Qed.

Lemma digit_not_sign (c : ascii) :
  is_digit c = true -> Ascii.eqb c "-" = false /\ Ascii.eqb c "+" = false.
Proof.
  destruct c as [[] [] [] [] [] [] [] []]; vm_compute; split; congruence.
Qed.

Lemma dec_chars (n : Z) :
  dec n <> [] /\ Forall (fun c => is_dec_char c = true) (dec n).
Proof.
  unfold dec. destruct (n <? 0)%Z eqn:E.
  - apply Z.ltb_lt in E.
    destruct (dec_nonneg_spec (- n)%Z) as (_ & Hall & _); [lia|].
    split; [discriminate|]. constructor; [reflexivity|].
    eapply Forall_impl; [|exact Hall]. apply digit_is_dec_char.
  - apply Z.ltb_ge in E.
    destruct (dec_nonneg_spec n E) as (Hne & Hall & _).
    split; [assumption|].
    eapply Forall_impl; [|exact Hall]. apply digit_is_dec_char.
Qed.

Lemma lstrip_id (s : str) :
  Forall (fun c => is_space c = false) s -> lstrip s = s.
Proof.
  destruct s as [|c s]; [reflexivity|]. intros H. simpl.
  now rewrite (Forall_inv H).
Qed.

Lemma strip_id (s : str) :
  Forall (fun c => is_space c = false) s -> strip s = s.
Proof.
  intros H. unfold strip, rstrip. rewrite (lstrip_id s H).
  rewrite lstrip_id; [apply rev_involutive|].
  now apply Forall_rev.
Qed.

Lemma strip_dec (n : Z) : strip (dec n) = dec n.
Proof.
  apply strip_id. eapply Forall_impl; [|apply dec_chars].
  apply dec_char_not_space.
Qed.

Lemma dec_char_not_int_space (c : ascii) :
  is_dec_char c = true -> is_int_space c = false.
Proof.
  destruct c as [[] [] [] [] [] [] [] []]; vm_compute; congruence.
Qed.

Lemma lstrip_int_id (s : str) :
  Forall (fun c => is_int_space c = false) s -> lstrip_int s = s.
Proof.
  destruct s as [|c s]; [reflexivity|]. intros H. simpl.
  now rewrite (Forall_inv H).
Qed.

Lemma strip_int_id (s : str) :
  Forall (fun c => is_int_space c = false) s -> strip_int s = s.
Proof.
  intros H. unfold strip_int. rewrite (lstrip_int_id s H).
  rewrite lstrip_int_id; [apply rev_involutive|].
  now apply Forall_rev.
Qed.

Lemma strip_int_dec (n : Z) : strip_int (dec n) = dec n.
Proof.
  apply strip_int_id. eapply Forall_impl; [|apply dec_chars].
  apply dec_char_not_int_space.
Qed.

(** The number of digits of a printed integer. *)
Lemma dec_digits_length (fuel : nat) :
  forall (n : Z) (acc : str),
    (0 <= n < 2 ^ Z.of_nat fuel)%Z -> fuel <> 0 ->
    exists ds,
      dec_digits fuel n acc = ds ++ acc
      /\ (n < 10 ^ Z.of_nat (List.length ds))%Z
      /\ (List.length ds = 1
          \/ (10 ^ (Z.of_nat (List.length ds) - 1) <= n)%Z).
Proof.
  induction fuel as [|f IH]; intros n acc Hn Hf; [contradiction|].
  cbn [dec_digits]. destruct (n <? 10)%Z eqn:E.
  - apply Z.ltb_lt in E. exists [digit_char (n mod 10)].
    split; [reflexivity|]. split; [|now left].
    change (10 ^ Z.of_nat (List.length [digit_char (n mod 10)]))%Z
      with 10%Z. exact E.
  - apply Z.ltb_ge in E.
    assert (Hq : (0 <= n / 10 < 2 ^ Z.of_nat f)%Z).
    { split; [apply Z.div_pos; lia|].
      apply Z.div_lt_upper_bound; [lia|].
      rewrite Nat2Z.inj_succ, Z.pow_succ_r in Hn by lia. lia. }
    assert (Hf' : f <> 0).
    { intros ->. simpl in Hq. assert (1 <= n / 10)%Z; [|lia].
      apply Z.div_le_lower_bound; lia. }
    destruct (IH (n / 10)%Z (digit_char (n mod 10) :: acc) Hq Hf')
      as (ds & E1 & Hub & Hlb).
    exists (ds ++ [digit_char (n mod 10)]).
    rewrite E1, <- app_assoc. split; [reflexivity|].
    rewrite length_app. cbn [List.length].
    rewrite Nat2Z.inj_add. change (Z.of_nat 1) with 1%Z.
    rewrite Z.pow_add_r by lia. change (10 ^ 1)%Z with 10%Z.
    replace (Z.of_nat (List.length ds) + 1 - 1)%Z
      with (Z.of_nat (List.length ds)) by lia.
    pose proof (Z.div_mod n 10 ltac:(lia)) as Hd.
    pose proof (Z.mod_pos_bound n 10 ltac:(lia)) as Hm.
    split.
    { revert Hub. generalize (10 ^ Z.of_nat (List.length ds))%Z.
      intros p Hub. lia. }
    right. destruct Hlb as [Hone|Hlb].
    + rewrite Hone. change (10 ^ Z.of_nat 1)%Z with 10%Z. exact E.
    + assert (Hpos : 0 < List.length ds).
      { destruct ds; [|cbn [List.length]; lia].
        cbn [List.length] in Hub.
        change (10 ^ Z.of_nat 0)%Z with 1%Z in Hub.
        assert (1 <= n / 10)%Z by (apply Z.div_le_lower_bound; lia). lia. }
      replace (Z.of_nat (List.length ds))
        with (Z.succ (Z.of_nat (List.length ds) - 1)) at 1 by lia.
      rewrite Z.pow_succ_r by lia.
      revert Hlb. generalize (10 ^ (Z.of_nat (List.length ds) - 1))%Z.
      intros p Hlb. lia.
Qed.

Lemma dec_nonneg_length (n k : Z) :
  (0 <= n)%Z -> (1 <= k)%Z ->
  (k <? Z.of_nat (List.length (dec_nonneg n)))%Z = negb (n <? 10 ^ k)%Z.
Proof.
  intros Hn Hk. unfold dec_nonneg.
  destruct (dec_digits_length _ n [] (log2_fuel n Hn) (Nat.neq_succ_0 _))
    as (ds & E & Hub & Hlb).
  rewrite E, app_nil_r.
  destruct (k <? Z.of_nat (List.length ds))%Z eqn:C.
  - apply Z.ltb_lt in C. symmetry. apply negb_true_iff, Z.ltb_ge.
    destruct Hlb as [Hone|Hlb]; [lia|].
    apply Z.le_trans with (2 := Hlb). apply Z.pow_le_mono_r; lia.
  - apply Z.ltb_ge in C. symmetry. apply negb_false_iff, Z.ltb_lt.
    apply Z.lt_le_trans with (1 := Hub). apply Z.pow_le_mono_r; lia.
Qed.

(** Reading back a printed integer gives the integer, unless its text
    has more digits than [int] converts. *)
Lemma py_int_dec (n : Z) :
  py_int (dec n) = if int_text_ok n then Ok n else Raise ValueError.
Proof.
  unfold py_int, int_text_ok. rewrite strip_int_dec. unfold dec.
  destruct (n <? 0)%Z eqn:E.
  - apply Z.ltb_lt in E.
    destruct (dec_nonneg_spec (- n)%Z) as (_ & Hall & Hp); [lia|].
    rewrite Ascii.eqb_refl, Hp.
    rewrite filter_all_true by (now apply Forall_forall).
    rewrite (dec_nonneg_length (- n) max_str_digits) by (try lia; easy).
    replace (Z.abs n) with (- n)%Z by lia.
    destruct (- n <? 10 ^ max_str_digits)%Z; cbn [negb]; [|reflexivity].
    f_equal. lia.
  - apply Z.ltb_ge in E.
    destruct (dec_nonneg_spec n E) as (Hne & Hall & Hp).
    pose proof (dec_nonneg_length n max_str_digits E ltac:(easy)) as Hl.
    destruct (dec_nonneg n) as [|c t] eqn:Ed; [contradiction|].
    destruct (digit_not_sign c (Forall_inv Hall)) as [-> ->].
    rewrite Hp. rewrite filter_all_true by (now apply Forall_forall).
    rewrite Hl. replace (Z.abs n) with n by lia.
    now destruct (n <? 10 ^ max_str_digits)%Z.
Qed.

Lemma py_int_dec_ok (n : Z) : int_text_ok n = true -> py_int (dec n) = Ok n.
Proof. intros H. now rewrite py_int_dec, H. Qed.

(** ** Matching and substituting on texts with a known shape *)

Module ReText.
Import Re.

Lemma match_here_cons (a : atom) (p : pattern) (s : str) :
  match_here (a :: p) s
  = backtrack (run a s) (rmin a)
      (fun k =>
         match match_here p (skipn k s) with
         | Some (m, gs) => Some (k + m, if grp a then firstn k s :: gs else gs)
         | None => None
         end).
Proof. reflexivity. Qed.

Lemma match_here_chr_hit (c : ascii) (p : pattern) (s : str) :
  match_here (chr c :: p) (c :: s)
  = match match_here p s with
    | Some (m, gs) => Some (S m, gs)
    | None => None
    end.
Proof.
  cbn [match_here]. unfold run. cbn [chr cls rmax rmin grp span].
  rewrite Ascii.eqb_refl, <- Nat.succ_min_distr, Nat.min_0_r.
  cbn [backtrack Nat.ltb Nat.leb skipn].
  destruct (match_here p s) as [[m gs]|]; reflexivity.
Qed.

Lemma match_here_chr_miss (c d : ascii) (p : pattern) (s : str) :
  Ascii.eqb c d = false -> match_here (chr c :: p) (d :: s) = None.
Proof.
  intros H. cbn [match_here]. unfold run. cbn [chr cls rmax rmin grp span].
  rewrite H. reflexivity.
Qed.

Lemma match_here_chr_nil (c : ascii) (p : pattern) :
  match_here (chr c :: p) [] = None.
Proof. reflexivity. Qed.

(** A pattern that begins with a literal text matches only where the text
    begins with it. *)
Lemma match_here_lits_miss (l : str) (p : pattern) (s : str) :
  starts_with l s = false -> match_here (map chr l ++ p) s = None.
Proof.
  revert s. induction l as [|a l IH]; intros s H; [discriminate|].
  destruct s as [|b s]; [apply match_here_chr_nil|].
  cbn [starts_with] in H. cbn [map app].
  destruct (Ascii.eqb a b) eqn:E.
  - apply Ascii.eqb_eq in E as <-. rewrite match_here_chr_hit.
    now rewrite (IH s H).
  - now apply match_here_chr_miss.
Qed.

Lemma match_here_lits_hit (l : str) (p : pattern) (s : str) :
  match_here (map chr l ++ p) (l ++ s)
  = match match_here p s with
    | Some (m, gs) => Some (List.length l + m, gs)
    | None => None
    end.
Proof.
  induction l as [|a l IH]; cbn [map app List.length].
  - destruct (match_here p s) as [[m gs]|]; reflexivity.
  - rewrite match_here_chr_hit, IH.
    destruct (match_here p s) as [[m gs]|]; reflexivity.
Qed.

Lemma span_app_stop (f : ascii -> bool) (u : str) (c : ascii) (rest : str) :
  f c = false -> span f (u ++ c :: rest) = span f u.
Proof.
  intros H. induction u as [|a u IH]; simpl.
  - now rewrite H.
  - destruct (f a); [now rewrite IH|reflexivity].
Qed.

Lemma span_all (f : ascii -> bool) (u : str) :
  Forall (fun c => f c = true) u -> span f u = List.length u.
Proof.
  induction 1 as [|a u Ha _ IH]; simpl; [reflexivity|].
  now rewrite Ha, IH.
Qed.

(** [([^c]+)c] on a text that holds no [c] before the closing one. *)
Lemma match_here_until (c : ascii) (body post : str) :
  body <> [] ->
  Forall (fun x => other_than c x = true) body ->
  match_here [group (plus (other_than c)); chr c] (body ++ c :: post)
  = Some (S (List.length body), [body]).
Proof.
  intros Hne Hall. rewrite match_here_cons. unfold run.
  cbn [group plus cls rmax rmin grp].
  assert (Hc : other_than c c = false)
    by (unfold other_than; now rewrite Ascii.eqb_refl).
  rewrite (span_app_stop _ body c post Hc), (span_all _ _ Hall).
  apply ReFacts.backtrack_top.
  - destruct body; [contradiction|simpl; lia].
  - rewrite skipn_app, skipn_all, Nat.sub_diag. cbn [app skipn].
    rewrite match_here_chr_hit. cbn [match_here].
    rewrite firstn_app, firstn_all, Nat.sub_diag. cbn [firstn].
    rewrite app_nil_r, Nat.add_1_r. reflexivity.
Qed.

(** [(f{n})] takes [n] characters of [f], or fails. *)
Lemma match_here_exactly (n : nat) (f : ascii -> bool) (s : str) :
  match_here [group (exactly n f)] s
  = if n <=? span f s then Some (n, [firstn n s]) else None.
Proof.
  cbn [match_here]. unfold run. cbn [group exactly cls rmax rmin grp].
  destruct (n <=? span f s) eqn:E.
  - apply Nat.leb_le in E. rewrite Nat.min_r by assumption.
    apply ReFacts.backtrack_top; [lia|]. cbn [match_here].
    now rewrite Nat.add_0_r.
  - apply Nat.leb_gt in E. rewrite Nat.min_l by lia.
    apply ReFacts.backtrack_none. intros j Hj. lia.
Qed.

Section Sub.

Variable p : pattern.
Variable repl : match_obj -> result str.

Lemma sub_from_skipn (k : nat) (s : str) :
  sub_from p repl k s = sub_from p repl 0 (skipn k s).
Proof.
  revert k. induction s as [|c s IH]; intros k.
  - now destruct k.
  - destruct k as [|k]; [reflexivity|]. cbn [sub_from skipn]. apply IH.
Qed.

(** Substitution goes through a prefix whose matches do not depend on what
    follows it. *)
Lemma sub_from_app (pre rest : str) :
  (forall t1 t2, pre = t1 ++ t2 -> t2 <> [] ->
                 match_here p (t2 ++ rest) = match_here p t2) ->
  forall k, k <= List.length pre ->
  sub_from p repl k (pre ++ rest)
  = (a <- sub_from p repl k pre ;;
     b <- sub_from p repl 0 rest ;;
     Ok (a ++ b)).
Proof.
  induction pre as [|c pre IH]; intros Hm k Hk.
  - assert (k = 0) as -> by (simpl in Hk; lia). simpl.
    now destruct (sub_from p repl 0 rest).
  - assert (Hm' : forall t1 t2, pre = t1 ++ t2 -> t2 <> [] ->
                    match_here p (t2 ++ rest) = match_here p t2).
    { intros t1 t2 E. apply (Hm (c :: t1)). simpl. now rewrite E. }
    destruct k as [|k].
    + cbn [app sub_from].
      change (c :: pre ++ rest) with ((c :: pre) ++ rest).
      rewrite (Hm [] (c :: pre) eq_refl) by discriminate.
      destruct (match_here p (c :: pre)) as [[[|n] gs]|] eqn:E.
      * rewrite (IH Hm' 0) by lia.
        destruct (sub_from p repl 0 pre); simpl; [|reflexivity].
        now destruct (sub_from p repl 0 rest).
      * apply ReFacts.match_here_length in E. simpl in E.
        replace (firstn (S n) ((c :: pre) ++ rest))
          with (firstn (S n) (c :: pre)).
        2:{ rewrite firstn_app.
            replace (S n - List.length (c :: pre)) with 0 by (simpl; lia).
            cbn [firstn]. now rewrite app_nil_r. }
        destruct (repl _); simpl; [|reflexivity].
        rewrite (IH Hm' n) by lia.
        destruct (sub_from p repl n pre); simpl; [|reflexivity].
        destruct (sub_from p repl 0 rest); simpl; [|reflexivity].
        now rewrite app_assoc.
      * rewrite (IH Hm' 0) by lia.
        destruct (sub_from p repl 0 pre); simpl; [|reflexivity].
        now destruct (sub_from p repl 0 rest).
    + cbn [app sub_from]. apply IH; [assumption|simpl in Hk; lia].
Qed.

(** A match at the head is replaced, and substitution resumes after it. *)
Lemma sub_from_match (m rest : str) (gs : list str) :
  m <> [] ->
  match_here p (m ++ rest) = Some (List.length m, gs) ->
  sub_from p repl 0 (m ++ rest)
  = (r <- repl (Match m gs) ;;
     t <- sub_from p repl 0 rest ;;
     Ok (r ++ t)).
Proof.
  intros Hne E. destruct m as [|c m]; [contradiction|].
  cbn [app sub_from]. change (c :: m ++ rest) with ((c :: m) ++ rest).
  rewrite E. cbn [List.length].
  replace (firstn (S (List.length m)) ((c :: m) ++ rest)) with (c :: m).
  2:{ cbn [app firstn]. f_equal. rewrite firstn_app, firstn_all, Nat.sub_diag.
      cbn [firstn]. now rewrite app_nil_r. }
  rewrite sub_from_skipn, skipn_app, skipn_all, Nat.sub_diag.
  reflexivity.
Qed.

End Sub.

End ReText.

(** ** Binary64 luminance on bytes *)

(** A valid mantissa is below 2^53, its exponent is at least -1074, and
    above that exponent the mantissa is at least 2^52. *)
Lemma valid_finite (s : bool) (m : positive) (e : Z) :
  valid_binary (S754_finite s m e) = true ->
  (Z.pos m < 2 ^ 53 /\ -1074 <= e
   /\ (-1074 < e -> 2 ^ 52 <= Z.pos m))%Z.
Proof.
  cbn [valid_binary]. unfold bounded, canonical_mantissa, fexp, emin.
  intros H. apply andb_true_iff in H as [H _]. apply Z.eqb_eq in H.
  change (3 - emax - prec)%Z with (-1074)%Z in H.
  change prec with 53%Z in H.
  pose proof (digits2_pos_bounds m) as [Hlo Hhi].
  revert H Hlo Hhi. generalize (digits2_pos m). intros p H Hlo Hhi.
  pose proof (Z.max_spec (Z.pos p + e - 53) (-1074)) as Hmax.
  change IntDef.Z.max with Z.max in H. rewrite H in Hmax. clear H.
  set (d := Z.pos p) in *.
  assert (Hd : (0 < d)%Z) by (unfold d; lia).
  split; [|split].
  - assert (d <= 53)%Z by lia.
    eapply Z.lt_le_trans; [exact Hhi|]. apply Z.pow_le_mono_r; lia.
  - lia.
  - intros He. assert (d = 53)%Z as Ed by lia.
    rewrite Ed in Hlo. exact Hlo.
Qed.

Lemma scaled_value_lt (x y : spec_float) :
  valid_binary x = true -> valid_binary y = true ->
  nonneg_finite x = true -> nonneg_finite y = true ->
  SFcompare x y = Some Lt -> (scaled_value x < scaled_value y)%Z.
Proof.
  intros Vx Vy Nx Ny.
  destruct x as [sx| | |[] mx ex], y as [sy| | |[] my ey];
    try discriminate; cbn [SFcompare scaled_value].
  - intros _. pose proof (valid_finite _ _ _ Vy) as (_ & He & _).
    apply Z.mul_pos_pos; [lia|]. apply Z.pow_pos_nonneg; lia.
  - pose proof (valid_finite _ _ _ Vx) as (Hmx & Hex & _).
    pose proof (valid_finite _ _ _ Vy) as (Hmy & Hey & Hny).
    destruct (ex ?= ey)%Z eqn:E.
    + apply Z.compare_eq in E as ->. intros [= H].
      assert (mx < my)%positive by (now apply Pos.compare_cont_Lt_Lt in H || exact H).
      apply Z.mul_lt_mono_pos_r; [apply Z.pow_pos_nonneg; lia|lia].
    + intros _. rewrite Z.compare_lt_iff in E.
      specialize (Hny ltac:(lia)).
      apply Z.lt_le_trans with (2 ^ 53 * 2 ^ (ex + 1074))%Z.
      * apply Z.mul_lt_mono_pos_r; [apply Z.pow_pos_nonneg; lia|lia].
      * apply Z.le_trans with (2 ^ 52 * 2 ^ (ey + 1074))%Z.
        -- replace (ey + 1074)%Z with ((ey - ex - 1) + (ex + 1074 + 1))%Z by lia.
           rewrite (Z.pow_add_r 2 (ey - ex - 1)) by lia.
           rewrite (Z.pow_add_r 2 (ex + 1074) 1) by lia.
           change (2 ^ 53)%Z with (2 ^ 52 * 2 ^ 1)%Z.
           assert (1 <= 2 ^ (ey - ex - 1))%Z
             by (apply (Z.pow_le_mono_r 2 0); lia).
           assert (0 < 2 ^ (ex + 1074))%Z by (apply Z.pow_pos_nonneg; lia).
           nia.
        -- apply Z.mul_le_mono_nonneg_r; [apply Z.pow_nonneg; lia|lia].
    + discriminate.
Qed.

Lemma scaled_value_eq (x y : spec_float) :
  nonneg_finite x = true -> nonneg_finite y = true ->
  SFcompare x y = Some Eq -> scaled_value x = scaled_value y.
Proof.
  intros Nx Ny.
  destruct x as [sx| | |[] mx ex], y as [sy| | |[] my ey];
    try discriminate; cbn [SFcompare scaled_value]; [reflexivity|].
  destruct (ex ?= ey)%Z eqn:E; try discriminate.
  apply Z.compare_eq in E as ->. intros [= H].
  apply Pos.compare_eq in H. now subst.
Qed.

(** Truncation of a non-negative float is its scaled value over 2^1074. *)
Lemma int_of_float_scaled (t : float) :
  nonneg_finite (Prim2SF t) = true ->
  int_of_float t = Ok (scaled_value (Prim2SF t) / 2 ^ 1074)%Z.
Proof.
  unfold int_of_float. pose proof (Prim2SF_valid t) as V.
  destruct (Prim2SF t) as [s| | |[] m e]; try discriminate; intros _.
  - reflexivity.
  - cbn [scaled_value].
    pose proof (valid_finite _ _ _ V) as (_ & He & _).
    f_equal. destruct (0 <=? e)%Z eqn:E.
    + apply Z.leb_le in E. rewrite Z.pow_add_r by lia.
      rewrite Z.mul_assoc, Z.div_mul; [reflexivity|].
      apply Z.pow_nonzero; lia.
    + apply Z.leb_gt in E.
      replace 1074%Z with ((- e) + (e + 1074))%Z at 2 by lia.
      rewrite (Z.pow_add_r 2 (- e)) by lia.
      rewrite Z.div_mul_cancel_r; [reflexivity| |];
        apply Z.pow_nonzero; lia.
Qed.

(** A float between two integer-valued floats truncates to an integer
    between the two integers. *)
Lemma int_of_float_between (lo hi t : float) (a b : Z) :
  nonneg_finite (Prim2SF lo) = true ->
  nonneg_finite (Prim2SF hi) = true ->
  scaled_value (Prim2SF lo) = (a * 2 ^ 1074)%Z ->
  scaled_value (Prim2SF hi) = (b * 2 ^ 1074)%Z ->
  (lo <=? t)%float = true -> (t <? hi)%float = true ->
  exists y, int_of_float t = Ok y /\ (a <= y < b)%Z.
Proof.
  intros Nlo Nhi Vlo Vhi Hlo Hhi.
  rewrite FloatAxioms.leb_spec in Hlo. rewrite FloatAxioms.ltb_spec in Hhi.
  unfold SFleb in Hlo. unfold SFltb in Hhi.
  assert (Nt : nonneg_finite (Prim2SF t) = true).
  { destruct (Prim2SF lo) as [sl| | |[] ml el]; try discriminate;
      destruct (Prim2SF hi) as [sh| | |[] mh eh]; try discriminate;
      destruct (Prim2SF t) as [st|[]| |[] mt et]; try reflexivity;
      cbn in Hlo, Hhi; discriminate. }
  exists (scaled_value (Prim2SF t) / 2 ^ 1074)%Z.
  split; [now apply int_of_float_scaled|].
  assert (P : (0 < 2 ^ 1074)%Z) by (apply Z.pow_pos_nonneg; lia).
  assert (L : (scaled_value (Prim2SF lo) <= scaled_value (Prim2SF t))%Z).
  { destruct (SFcompare (Prim2SF lo) (Prim2SF t)) as [[]|] eqn:E;
      try discriminate.
    - rewrite (scaled_value_eq _ _ Nlo Nt E). lia.
    - apply Z.lt_le_incl.
      apply scaled_value_lt; auto using Prim2SF_valid. }
  assert (H : (scaled_value (Prim2SF t) < scaled_value (Prim2SF hi))%Z).
  { destruct (SFcompare (Prim2SF t) (Prim2SF hi)) as [[]|] eqn:E;
      try discriminate.
    apply scaled_value_lt; auto using Prim2SF_valid. }
  rewrite Vlo in L. rewrite Vhi in H. split.
  - apply Z.div_le_lower_bound; lia.
  - apply Z.div_lt_upper_bound; lia.
Qed.

Lemma gray_check_ok :
  forallb
    (fun r =>
       forallb
         (fun g =>
            gray_window
              (0.299 * nearest_float r + 0.587 * nearest_float g)%float
              blue_terms (Uint63.of_Z ((299 * r + 587 * g) mod 1000))
              (skipn (Z.to_nat ((299 * r + 587 * g) / 1000)) ladder))
         bytes)
    bytes = true.
Proof. vm_cast_no_check (eq_refl true). Qed.

Lemma ladder_check_ok : forallb ladder_entry (seq 0 259) = true.
Proof. vm_compute. reflexivity. Qed.

Lemma bytes_check_ok : forallb finite_float bytes = true.
Proof. vm_compute. reflexivity. Qed.

Lemma nth_skipn_ladder {A : Type} (q i : nat) (l : list A) (d : A) :
  nth i (skipn q l) d = nth (q + i) l d.
Proof.
  revert l. induction q as [|q IH]; intros l; [reflexivity|].
  destruct l as [|a l]; [now destruct i|]. cbn [skipn Nat.add nth]. apply IH.
Qed.

Lemma tl_skipn {A : Type} (q : nat) (l : list A) :
  tl (skipn q l) = skipn (S q) l.
Proof.
  revert l. induction q as [|q IH]; intros l.
  - now destruct l.
  - destruct l as [|a l]; [reflexivity|]. cbn [skipn] in *. apply IH.
Qed.

Lemma blue_terms_length : List.length blue_terms = 256.
Proof. unfold blue_terms, bytes. now rewrite !length_map, length_seq. Qed.

Lemma nth_map_seq {A : Type} (f : nat -> A) (d : A) (k j : nat) :
  j < k -> nth j (map f (seq 0 k)) d = f j.
Proof.
  intros Hj. rewrite (nth_indep _ d (f 0))
    by (rewrite length_map, length_seq; exact Hj).
  now rewrite map_nth, seq_nth.
Qed.

Lemma blue_terms_nth (j : nat) :
  j < 256 ->
  nth j blue_terms 0%float = (0.114 * nearest_float (Z.of_nat j))%float.
Proof.
  intros Hj. unfold blue_terms, bytes. rewrite map_map.
  now rewrite nth_map_seq.
Qed.

(** What [gray_window] checks: for each [j] of the run, the float sum lies
    between the ladder floats at [(p + 114 j) / 1000] and two places on. *)
Lemma gray_window_spec (p : Z) (s : float) (k : nat) :
  forall (n q : nat) (rem : Uint63.int),
    (0 <= p)%Z -> n + k = 256 ->
    (0 <= Uint63.to_Z rem < 1000)%Z ->
    (p + 114 * Z.of_nat n = 1000 * Z.of_nat q + Uint63.to_Z rem)%Z ->
    gray_window s (skipn n blue_terms) rem (skipn q ladder) = true ->
    forall j, n <= j < 256 ->
      let qj := Z.to_nat ((p + 114 * Z.of_nat j) / 1000) in
      let t := (s + nth j blue_terms 0)%float in
      (nth qj ladder 0 <=? t)%float = true
      /\ (t <? nth (qj + 2) ladder 0)%float = true.
Proof.
  induction k as [|k IH]; intros n q rem Hp Hk Hrem Hinv H j Hj; [lia|].
  destruct (skipn n blue_terms) as [|c cs] eqn:Ecs.
  { apply (f_equal (@List.length float)) in Ecs.
    rewrite length_skipn, blue_terms_length in Ecs.
    cbn [List.length] in Ecs. lia. }
  assert (Ec : nth n blue_terms 0%float = c).
  { rewrite <- (Nat.add_0_r n), <- nth_skipn_ladder, Ecs. reflexivity. }
  assert (Ecs' : cs = skipn (S n) blue_terms).
  { rewrite <- tl_skipn, Ecs. reflexivity. }
  cbn [gray_window] in H.
  destruct (skipn q ladder) as [|lo [|mid [|hi fs]]] eqn:Efs;
    try discriminate.
  apply andb_true_iff in H as [Hw Hrest].
  apply andb_true_iff in Hw as [Hlo Hhi].
  assert (Eq : ((p + 114 * Z.of_nat n) / 1000 = Z.of_nat q)%Z).
  { symmetry. apply (Z.div_unique _ _ _ (Uint63.to_Z rem)); lia. }
  destruct (Nat.eq_dec j n) as [->|Hne].
  - cbv zeta. rewrite Eq, Nat2Z.id, Ec.
    assert (E0 : nth q ladder 0%float = lo).
    { rewrite <- (Nat.add_0_r q), <- nth_skipn_ladder, Efs. reflexivity. }
    assert (E2 : nth (q + 2) ladder 0%float = hi).
    { rewrite <- nth_skipn_ladder, Efs. reflexivity. }
    rewrite E0, E2. now split.
  - assert (Ha : Uint63.to_Z (rem + 114)%uint63
                 = (Uint63.to_Z rem + 114)%Z).
    { rewrite Uint63.add_spec. change (Uint63.to_Z 114) with 114%Z.
      apply Z.mod_small. change Uint63.wB with (2 ^ 63)%Z. lia. }
    rewrite Ecs' in Hrest.
    destruct (rem + 114 <? 1000)%uint63 eqn:Elt.
    + apply Uint63.ltb_spec in Elt. rewrite Ha in Elt.
      change (Uint63.to_Z 1000) with 1000%Z in Elt.
      rewrite <- Efs in Hrest.
      apply (IH (S n) q (rem + 114)%uint63); try assumption; try lia.
    + assert (Hge : (1000 <= Uint63.to_Z rem + 114)%Z).
      { destruct (Z_lt_le_dec (Uint63.to_Z rem + 114) 1000) as [Hl|Hl];
          [|assumption].
        rewrite <- Ha in Hl. change 1000%Z with (Uint63.to_Z 1000) in Hl.
        apply Uint63.ltb_spec in Hl. congruence. }
      assert (Hs : Uint63.to_Z (rem + 114 - 1000)%uint63
                   = (Uint63.to_Z rem + 114 - 1000)%Z).
      { rewrite Uint63.sub_spec, Ha. change (Uint63.to_Z 1000) with 1000%Z.
        apply Z.mod_small. change Uint63.wB with (2 ^ 63)%Z. lia. }
      rewrite <- Efs, tl_skipn in Hrest.
      apply (IH (S n) (S q) (rem + 114 - 1000)%uint63);
        try assumption; try lia.
Qed.

Lemma ladder_value (k : nat) :
  k < 259 ->
  nonneg_finite (Prim2SF (nth k ladder 0%float)) = true
  /\ scaled_value (Prim2SF (nth k ladder 0%float))
     = (Z.max 0 (Z.of_nat k - 1) * 2 ^ 1074)%Z.
Proof.
  intros Hk.
  assert (Hin : In k (seq 0 259)) by (apply in_seq; lia).
  pose proof (proj1 (forallb_forall ladder_entry (seq 0 259))
                ladder_check_ok k Hin) as H.
  unfold ladder_entry in H.
  destruct (Prim2SF (nth k ladder 0%float)) as [s| | |[] m e];
    try discriminate.
  - apply Z.eqb_eq in H. cbn [nonneg_finite scaled_value].
    split; [reflexivity|]. rewrite H. reflexivity.
  - apply Z.eqb_eq in H. now split.
Qed.

Lemma byte_in_bytes (z : Z) : (0 <= z <= 255)%Z -> In z bytes.
Proof.
  intros H. unfold bytes. rewrite <- (Z2Nat.id z) by lia.
  apply in_map, in_seq. lia.
Qed.

Lemma float_of_byte (z : Z) :
  (0 <= z <= 255)%Z -> float_of_int z = Ok (nearest_float z).
Proof.
  intros H.
  pose proof (proj1 (forallb_forall finite_float bytes)
                bytes_check_ok z (byte_in_bytes z H)) as C.
  unfold finite_float in C. unfold float_of_int. fold (nearest_float z).
  now destruct (PrimFloat.is_infinity (nearest_float z)).
Qed.


Lemma gray_check_at (r g : Z) :
  (0 <= r <= 255)%Z -> (0 <= g <= 255)%Z ->
  gray_window (0.299 * nearest_float r + 0.587 * nearest_float g)%float
    blue_terms (Uint63.of_Z ((299 * r + 587 * g) mod 1000))
    (skipn (Z.to_nat ((299 * r + 587 * g) / 1000)) ladder) = true.
Proof.
  intros Hr Hg.
  exact (proj1 (forallb_forall _ bytes)
           (proj1 (forallb_forall _ bytes) gray_check_ok
                  r (byte_in_bytes r Hr))
           g (byte_in_bytes g Hg)).
Qed.

Lemma gray_window_at (r g b : Z) :
  (0 <= r <= 255)%Z -> (0 <= g <= 255)%Z -> (0 <= b <= 255)%Z ->
  let q := Z.to_nat ((299 * r + 587 * g + 114 * b) / 1000) in
  let t := (0.299 * nearest_float r + 0.587 * nearest_float g
            + 0.114 * nearest_float b)%float in
  (nth q ladder 0 <=? t)%float = true
  /\ (t <? nth (q + 2) ladder 0)%float = true.
Proof.
  intros Hr Hg Hb.
  pose proof (gray_check_at r g Hr Hg) as C.
  rewrite <- (skipn_O blue_terms) in C.
  set (p := (299 * r + 587 * g)%Z) in *.
  assert (Hp : (0 <= p)%Z) by (unfold p; lia).
  pose proof (Z.mod_pos_bound p 1000 eq_refl) as Hm.
  pose proof (Z.div_mod p 1000 ltac:(lia)) as Hd.
  assert (Hq : (0 <= p / 1000)%Z) by (apply Z.div_pos; lia).
  assert (Hrem : Uint63.to_Z (Uint63.of_Z (p mod 1000)) = (p mod 1000)%Z).
  { rewrite Uint63.of_Z_spec. apply Z.mod_small.
    change Uint63.wB with (2 ^ 63)%Z. lia. }
  pose proof (gray_window_spec p
                (0.299 * nearest_float r + 0.587 * nearest_float g)%float
                256 0 (Z.to_nat (p / 1000)) (Uint63.of_Z (p mod 1000))
                Hp eq_refl) as W.
  rewrite Hrem in W. specialize (W Hm).
  rewrite Z2Nat.id in W by assumption.
  specialize (W ltac:(lia) C (Z.to_nat b) ltac:(lia)).
  cbv zeta in W. rewrite blue_terms_nth in W by lia.
  rewrite Z2Nat.id in W by lia.
  cbv zeta. replace (299 * r + 587 * g + 114 * b)%Z with (p + 114 * b)%Z
    by (unfold p; lia).
  exact W.
Qed.

(** On byte channels the binary64 luminance is the exact truncated value
    or one less, and is a byte. *)
Lemma luminance_byte (r g b : Z) :
  (0 <= r <= 255)%Z -> (0 <= g <= 255)%Z -> (0 <= b <= 255)%Z ->
  exists gray,
    luminance r g b = Ok gray
    /\ (gray = exact_gray r g b \/ gray = (exact_gray r g b - 1)%Z)
    /\ (0 <= gray <= 255)%Z.
Proof.
  intros Hr Hg Hb. unfold luminance.
  rewrite (float_of_byte r Hr), (float_of_byte g Hg), (float_of_byte b Hb).
  cbn [bind].
  destruct (gray_window_at r g b Hr Hg Hb) as [Wlo Whi].
  set (T := (299 * r + 587 * g + 114 * b)%Z) in *.
  assert (HT : (0 <= T <= 255000)%Z) by (unfold T; lia).
  assert (HqT : (0 <= T / 1000 <= 255)%Z).
  { split; [apply Z.div_pos; lia|].
    apply Z.div_le_upper_bound; lia. }
  assert (Eg : exact_gray r g b = (T / 1000)%Z).
  { unfold exact_gray. fold T. apply Z.quot_div_nonneg; lia. }
  destruct (ladder_value (Z.to_nat (T / 1000))) as [Nlo Vlo]; [lia|].
  destruct (ladder_value (Z.to_nat (T / 1000) + 2)) as [Nhi Vhi]; [lia|].
  rewrite Z2Nat.id in Vlo by lia.
  rewrite Nat2Z.inj_add, Z2Nat.id in Vhi by lia.
  destruct (int_of_float_between _ _ _ _ _ Nlo Nhi Vlo Vhi Wlo Whi)
    as (y & Ey & Hy).
  exists y. split; [exact Ey|]. rewrite Eg.
  clear - Hy HqT. lia.
Qed.

(** ** The grayscale pass *)

Lemma split_on_clean (sep : ascii) (u : str) :
  Forall (fun c => Ascii.eqb c sep = false) u -> split_on sep u = [u].
Proof.
  induction 1 as [|c u Hc _ IH]; [reflexivity|].
  cbn [split_on]. now rewrite Hc, IH.
Qed.

Lemma split_on_app (sep : ascii) (u v : str) :
  Forall (fun c => Ascii.eqb c sep = false) u ->
  split_on sep (u ++ sep :: v) = u :: split_on sep v.
Proof.
  induction 1 as [|c u Hc _ IH]; cbn [app split_on].
  - now rewrite Ascii.eqb_refl.
  - now rewrite Hc, IH.
Qed.

Lemma dec_no_comma (n : Z) : Forall (fun c => Ascii.eqb c "," = false) (dec n).
Proof.
  eapply Forall_impl; [|apply dec_chars].
  intros c H. apply (dec_char_not_sep c H).
Qed.

Lemma dec_no_paren (n : Z) :
  Forall (fun c => Re.other_than ")" c = true) (dec n).
Proof.
  eapply Forall_impl; [|apply dec_chars].
  intros c H. apply (dec_char_not_sep c H).
Qed.

(** What [rgb_to_gray] returns on a triple of integers. *)
Lemma rgb_to_gray_triple (r g b : Z) (m : str) :
  rgb_to_gray (Re.Match m [dec r ++ ","%char :: dec g ++ ","%char :: dec b])
  = (gray <- (if int_text_ok r && int_text_ok g && int_text_ok b
              then luminance r g b else Raise ValueError) ;;
     Ok (rgb_text gray)).
Proof.
  unfold rgb_to_gray, fst_group. cbn [Re.groups nth].
  rewrite (split_on_app _ _ _ (dec_no_comma r)).
  rewrite (split_on_app _ _ _ (dec_no_comma g)).
  rewrite (split_on_clean _ _ (dec_no_comma b)).
  rewrite !strip_dec, !py_int_dec.
  destruct (int_text_ok r), (int_text_ok g), (int_text_ok b); reflexivity.
Qed.

Lemma match_here_rgb_triple (r g b : Z) (post : str) :
  Re.match_here rgb_pattern (rgb_triple r g b ++ post)
  = Some (List.length (rgb_triple r g b),
          [dec r ++ ","%char :: dec g ++ ","%char :: dec b]).
Proof.
  unfold rgb_pattern, rgb_triple, Re.lits. fold (lit "rgb(").
  set (body := dec r ++ ","%char :: dec g ++ ","%char :: dec b).
  replace (dec r ++ ","%char :: dec g ++ ","%char :: dec b ++ [")"%char])
    with (body ++ [")"%char])
    by (unfold body; now repeat (rewrite <- app_assoc; cbn [app])).
  rewrite <- !app_assoc. rewrite ReText.match_here_lits_hit.
  cbn [app]. rewrite ReText.match_here_until.
  - rewrite !length_app. cbn [List.length]. f_equal. f_equal. lia.
  - unfold body. destruct (dec_chars r) as [Hne _].
    destruct (dec r); [contradiction|discriminate].
  - unfold body. apply Forall_app. split; [apply dec_no_paren|].
    constructor; [reflexivity|].
    apply Forall_app. split; [apply dec_no_paren|].
    constructor; [reflexivity|apply dec_no_paren].
Qed.

Lemma contains_false_suffix (sub t1 t2 : str) :
  contains sub (t1 ++ t2) = false -> starts_with sub t2 = false.
Proof.
  induction t1 as [|c t1 IH]; cbn [app].
  - destruct t2; cbn [contains]; intros H;
      now apply orb_false_iff in H.
  - cbn [contains]. intros H. apply orb_false_iff in H. now apply IH.
Qed.

(** No match of the [rgb(...)] pattern begins in a text without [rgb(],
    whatever follows it. *)
Lemma rgb_prefix_clean (t1 t2 rest : str) :
  contains (lit "rgb(") (t1 ++ t2) = false -> t2 <> [] ->
  Re.match_here rgb_pattern (t2 ++ lit "rgb(" ++ rest) = None
  /\ Re.match_here rgb_pattern t2 = None.
Proof.
  intros Hc Hne. apply contains_false_suffix in Hc.
  unfold rgb_pattern, Re.lits. fold (lit "rgb(").
  split; apply ReText.match_here_lits_miss; [|assumption].
  destruct t2 as [|c1 [|c2 [|c3 [|c4 t]]]]; [contradiction| | | |].
  - cbn. now rewrite ?andb_false_r.
  - cbn. now rewrite ?andb_false_r.
  - cbn. now rewrite ?andb_false_r.
  - cbn in Hc |- *. exact Hc.
Qed.

Lemma gray_rgb_pass_triple (pre post : str) (r g b : Z) :
  contains (lit "rgb(") pre = false ->
  gray_rgb_pass (pre ++ rgb_triple r g b ++ post)
  = (gray <- (if int_text_ok r && int_text_ok g && int_text_ok b
              then luminance r g b else Raise ValueError) ;;
     t <- gray_rgb_pass post ;;
     Ok (pre ++ rgb_text gray ++ t)).
Proof.
  intros Hc. unfold gray_rgb_pass, Re.sub.
  assert (Hshape : rgb_triple r g b ++ post
                   = lit "rgb(" ++ (dec r ++ ","%char :: dec g ++ ","%char
                                      :: dec b ++ [")"%char]) ++ post).
  { unfold rgb_triple. now rewrite <- app_assoc. }
  rewrite ReText.sub_from_app; [| |lia].
  2:{ intros t1 t2 E Hne. subst pre. rewrite Hshape.
      destruct (rgb_prefix_clean t1 t2
                  ((dec r ++ ","%char :: dec g ++ ","%char
                      :: dec b ++ [")"%char]) ++ post) Hc Hne) as [-> ->].
      reflexivity. }
  assert (Hpre : Re.sub_from rgb_pattern rgb_to_gray 0 pre = Ok pre).
  { apply ReFacts.sub_not_found. apply ReFacts.search_none.
    intros t1 t2 E. subst pre.
    destruct t2 as [|c t2].
    - reflexivity.
    - now apply (rgb_prefix_clean t1 (c :: t2) []). }
  rewrite Hpre. cbn [bind].
  assert (Hne : rgb_triple r g b <> []) by (unfold rgb_triple; discriminate).
  rewrite (ReText.sub_from_match rgb_pattern rgb_to_gray _ post _ Hne
             (match_here_rgb_triple r g b post)).
  rewrite rgb_to_gray_triple.
  destruct (if int_text_ok r && int_text_ok g && int_text_ok b
            then luminance r g b else Raise ValueError);
    cbn [bind]; [|reflexivity].
  destruct (Re.sub_from rgb_pattern rgb_to_gray 0 post); reflexivity.
Qed.

Lemma match_here_hex (c : ascii) (s : str) :
  Re.match_here hex_pattern (c :: s)
  = if Ascii.eqb "#" c && (6 <=? Re.span is_hex s)
    then Some (7, [firstn 6 s]) else None.
Proof.
  unfold hex_pattern. destruct (Ascii.eqb "#" c) eqn:E.
  - apply Ascii.eqb_eq in E as <-.
    rewrite ReText.match_here_chr_hit, ReText.match_here_exactly.
    cbn [andb]. now destruct (6 <=? Re.span is_hex s).
  - now apply ReText.match_here_chr_miss.
Qed.

(** A match of the hexadecimal pattern is decided before the next [#]. *)
Lemma hex_prefix_stable (t2 rest : str) :
  t2 <> [] ->
  Re.match_here hex_pattern (t2 ++ "#"%char :: rest)
  = Re.match_here hex_pattern t2.
Proof.
  destruct t2 as [|c u]; [contradiction|]. intros _.
  cbn [app]. rewrite !match_here_hex.
  rewrite (ReText.span_app_stop is_hex u "#" rest eq_refl).
  destruct (Ascii.eqb "#" c && (6 <=? Re.span is_hex u)) eqn:E;
    [|reflexivity].
  apply andb_true_iff in E as [_ E]. apply Nat.leb_le in E.
  pose proof (ReFacts.span_le is_hex u) as Hl.
  rewrite firstn_app.
  replace (6 - List.length u) with 0 by lia.
  cbn [firstn]. now rewrite app_nil_r.
Qed.

Lemma gray_hex_pass_color (pre post : str) (r1 r2 g1 g2 b1 b2 : ascii) :
  is_hex r1 = true -> is_hex r2 = true -> is_hex g1 = true ->
  is_hex g2 = true -> is_hex b1 = true -> is_hex b2 = true ->
  gray_hex_pass (pre ++ "#"%char :: [r1; r2; g1; g2; b1; b2] ++ post)
  = (a <- gray_hex_pass pre ;;
     gray <- luminance (hex_pair r1 r2) (hex_pair g1 g2) (hex_pair b1 b2) ;;
     t <- gray_hex_pass post ;;
     Ok (a ++ hex_text gray ++ t)).
Proof.
  intros H1 H2 H3 H4 H5 H6. unfold gray_hex_pass, Re.sub.
  rewrite ReText.sub_from_app; [| |lia].
  2:{ intros t1 t2 _ Hne. now apply hex_prefix_stable. }
  destruct (Re.sub_from hex_pattern hex_to_gray 0 pre) as [a|e];
    cbn [bind]; [|reflexivity].
  change ("#"%char :: [r1; r2; g1; g2; b1; b2] ++ post)
    with (("#"%char :: [r1; r2; g1; g2; b1; b2]) ++ post).
  rewrite (ReText.sub_from_match hex_pattern hex_to_gray
             ("#"%char :: [r1; r2; g1; g2; b1; b2]) post
             [[r1; r2; g1; g2; b1; b2]]); [|discriminate|].
  - change (hex_to_gray (Re.Match ("#"%char :: [r1; r2; g1; g2; b1; b2])
                           [[r1; r2; g1; g2; b1; b2]]))
      with (gray <- luminance (hex_pair r1 r2) (hex_pair g1 g2)
                      (hex_pair b1 b2) ;;
            Ok (hex_text gray)).
    destruct (luminance _ _ _); cbn [bind]; [|reflexivity].
    destruct (Re.sub_from hex_pattern hex_to_gray 0 post); cbn [bind];
      reflexivity.
  - cbn [app]. rewrite match_here_hex. cbn [Re.span].
    rewrite H1, H2, H3, H4, H5, H6. reflexivity.
Qed.

Lemma hex_pair_byte (a b : ascii) :
  is_hex a = true -> is_hex b = true -> (0 <= hex_pair a b <= 255)%Z.
Proof.
  assert (H : forall c, is_hex c = true -> (0 <= hex_val c <= 15)%Z).
  { intros c. destruct c as [[] [] [] [] [] [] [] []]; vm_compute;
      intros H; try discriminate H; split; discriminate. }
  intros Ha Hb. unfold hex_pair.
  pose proof (H a Ha). pose proof (H b Hb). lia.
Qed.

Lemma fmt_02x_byte (n : Z) :
  (0 <= n <= 255)%Z -> List.length (fmt_02x n) = 2.
Proof.
  intros H.
  assert (C : forallb (fun z => List.length (fmt_02x z) =? 2) bytes = true)
    by (vm_compute; reflexivity).
  rewrite forallb_forall in C.
  apply Nat.eqb_eq, C, byte_in_bytes, H.
Qed.

(** C6 (as amended): the grayscale pass is the [rgb(...)] rewriting
    followed by the hexadecimal rewriting.  The first replaces a triple of
    integers [rgb(r,g,b)] (the leftmost one here) by [rgb(gray,gray,gray)],
    the second replaces a colour [#rrggbb] by [#] and the two-digit form of
    [gray] three times, where [gray] is [luminance]: the formula
    0.299 r + 0.587 g + 0.114 b evaluated in binary64 and truncated.  The
    text around the colour is rewritten independently of it.  On channels
    from 0 to 255 [gray] is defined, is the exactly computed and truncated
    value or one less, and is again a byte, printed on two hexadecimal
    digits.  (A channel written with more than 4300 digits is not read by
    [int], which raises [ValueError].) *)
Theorem convert_svg_grayscale_colors :
  (forall svg,
      _convert_svg_grayscale svg = (s <- gray_rgb_pass svg ;; gray_hex_pass s))
  /\ (forall pre post r g b,
         contains (lit "rgb(") pre = false ->
         gray_rgb_pass (pre ++ rgb_triple r g b ++ post)
         = (gray <- (if int_text_ok r && int_text_ok g && int_text_ok b
                     then luminance r g b else Raise ValueError) ;;
            t <- gray_rgb_pass post ;;
            Ok (pre ++ rgb_text gray ++ t)))
  /\ (forall pre post r1 r2 g1 g2 b1 b2,
         forallb is_hex [r1; r2; g1; g2; b1; b2] = true ->
         gray_hex_pass (pre ++ "#"%char :: [r1; r2; g1; g2; b1; b2] ++ post)
         = (a <- gray_hex_pass pre ;;
            gray <- luminance (hex_pair r1 r2) (hex_pair g1 g2)
                      (hex_pair b1 b2) ;;
            t <- gray_hex_pass post ;;
            Ok (a ++ hex_text gray ++ t)))
  /\ (forall r g b,
         (0 <= r <= 255)%Z -> (0 <= g <= 255)%Z -> (0 <= b <= 255)%Z ->
         exists gray,
           luminance r g b = Ok gray
           /\ (gray = exact_gray r g b \/ gray = (exact_gray r g b - 1)%Z)
           /\ (0 <= gray <= 255)%Z
           /\ List.length (fmt_02x gray) = 2)
  /\ (forall a b,
         is_hex a = true -> is_hex b = true ->
         (0 <= hex_pair a b <= 255)%Z).
Proof.
  split; [reflexivity|]. split; [|split; [|split]].
  - intros. now apply gray_rgb_pass_triple.
  - intros pre post r1 r2 g1 g2 b1 b2 H. cbn [forallb] in H.
    repeat (apply andb_true_iff in H; destruct H as [? H]).
    now apply gray_hex_pass_color.
  - intros r g b Hr Hg Hb.
    destruct (luminance_byte r g b Hr Hg Hb) as (gray & E & Hx & Hy).
    exists gray. repeat split; auto; try lia. now apply fmt_02x_byte.
  - exact hex_pair_byte.
Qed.

Lemma convert_svg_grayscale_colors_witness :
  gray_rgb_pass (sq "fill='rgb(255,0,0)'") = Ok (sq "fill='rgb(76,76,76)'")
  /\ gray_hex_pass (sq "fill='#FF0000'") = Ok (sq "fill='#4c4c4c'")
  /\ (exists gray, luminance 1 1 1 = Ok gray /\ (0 <= gray <= 255)%Z).
Proof.
  split; [|split].
  3:{ destruct (proj1 (proj2 (proj2 (proj2 convert_svg_grayscale_colors)))
                  1%Z 1%Z 1%Z) as (gray & E & _ & H & _); try lia.
      exists gray. split; [exact E|exact H]. }
  - pose proof (proj1 (proj2 convert_svg_grayscale_colors)
                  (sq "fill='") [dq] 255%Z 0%Z 0%Z eq_refl) as H.
    vm_compute in H |- *. exact H.
  - pose proof (proj1 (proj2 (proj2 convert_svg_grayscale_colors))
                  (sq "fill='") [dq] "F"%char "F"%char "0"%char "0"%char
                  "0"%char "0"%char eq_refl) as H.
    vm_compute in H |- *. exact H.
Defined.

(** C6 (as stated) fails on the darkest grey: the formula gives
    0.299 + 0.587 + 0.114 = 1 for the colour (1, 1, 1), the pass writes 0. *)
Lemma convert_svg_grayscale_rounds_down :
  exact_gray 1 1 1 = 1%Z
  /\ _convert_svg_grayscale (rgb_triple 1 1 1) = Ok (rgb_text 0)
  /\ _convert_svg_grayscale (lit "#010101") = Ok (lit "#000000")
  /\ rgb_text 0 <> rgb_text (exact_gray 1 1 1).
Proof.
  repeat split; try (vm_compute; reflexivity). vm_compute. discriminate.
Qed.

(** ** The background removal *)

Lemma split_on_line (l : str) :
  Forall (fun c => Ascii.eqb c nl = false) l -> split_on nl l = [l].
Proof. apply split_on_clean. Qed.

(** Splitting the joined lines gives the lines back. *)
Lemma split_join (lines : list str) :
  lines <> [] ->
  Forall (Forall (fun c => Ascii.eqb c nl = false)) lines ->
  split_on nl (join_with nl lines) = lines.
Proof.
  induction lines as [|l lines IH]; [contradiction|]. intros _ H.
  inversion H as [|? ? Hl Hrest]; subst.
  destruct lines as [|l' lines].
  - cbn [join_with]. now apply split_on_clean.
  - change (join_with nl (l :: l' :: lines))
      with (l ++ nl :: join_with nl (l' :: lines)).
    rewrite (split_on_app _ _ _ Hl). f_equal.
    apply IH; [discriminate|assumption].
Qed.

Lemma is_white_spec (line : str) : is_white line = true <-> white_fill line.
Proof.
  unfold is_white, white_fill, occurs.
  rewrite !orb_true_iff, !contains_spec. tauto.
Qed.

Lemma found_search (p : Re.pattern) (s : str) :
  found (Re.search p s) = true <->
  exists pre post n gs, s = pre ++ post /\ Re.match_here p post = Some (n, gs).
Proof.
  split.
  - induction s as [|c s IH]; cbn [Re.search].
    + destruct (Re.match_here p []) as [[n gs]|] eqn:E; [|discriminate].
      intros _. now exists [], [], n, gs.
    + destruct (Re.match_here p (c :: s)) as [[n gs]|] eqn:E.
      * intros _. now exists [], (c :: s), n, gs.
      * intros H. destruct (IH H) as (pre & post & n & gs & -> & Hm).
        now exists (c :: pre), post, n, gs.
  - intros (pre & post & n & gs & -> & Hm).
    destruct (Re.search p (pre ++ post)) eqn:E; [reflexivity|].
    rewrite ReFacts.search_none in E.
    rewrite (E pre post eq_refl) in Hm. discriminate.
Qed.

Lemma span_firstn (f : ascii -> bool) (k : nat) (s : str) :
  k <= Re.span f s ->
  Forall (fun c => f c = true) (firstn k s) /\ List.length (firstn k s) = k.
Proof.
  revert k. induction s as [|c s IH]; intros k Hk; cbn [Re.span] in Hk.
  - assert (k = 0) as -> by lia. now split.
  - destruct k as [|k]; [now split|]. cbn [firstn List.length].
    destruct (f c) eqn:E; [|lia].
    destruct (IH k) as [Hall Hlen]; [lia|].
    split; [now constructor|now rewrite Hlen].
Qed.

Lemma span_prefix (f : ascii -> bool) (u v : str) :
  Forall (fun c => f c = true) u -> List.length u <= Re.span f (u ++ v).
Proof.
  induction 1 as [|c u Hc _ IH]; cbn [app Re.span List.length]; [lia|].
  rewrite Hc. lia.
Qed.

Lemma backtrack_found {A : Type} (k lo j : nat) (try : nat -> option A) :
  lo <= j <= k -> try j <> None -> Re.backtrack k lo try <> None.
Proof.
  intros Hj Ht E. rewrite ReFacts.backtrack_none in E. now apply Ht, E.
Qed.

(** The pattern [[HV]\s*\d{3,}] matches at the head of a text exactly when
    the text begins with such a command. *)
Lemma match_here_hv (s : str) :
  (exists n gs, Re.match_here hv_pattern s = Some (n, gs)) <->
  exists c ws ds post,
    s = c :: ws ++ ds ++ post
    /\ (c = "H"%char \/ c = "V"%char)
    /\ Forall (fun x => is_space x = true) ws
    /\ Forall (fun x => is_digit x = true) ds
    /\ 3 <= List.length ds.
Proof.
  unfold hv_pattern. split.
  - intros (n & gs & H). rewrite ReText.match_here_cons in H.
    apply ReFacts.backtrack_some in H as (k1 & Hk1 & H).
    unfold Re.run in Hk1. cbn [Re.exactly Re.cls Re.rmin Re.rmax] in Hk1.
    destruct s as [|c s]; [cbn in Hk1; lia|].
    cbn [Re.span] in Hk1.
    destruct (Ascii.eqb c "H" || Ascii.eqb c "V") eqn:Ec; [|cbn in Hk1; lia].
    assert (k1 = 1) as -> by lia. cbn [skipn] in H.
    destruct (Re.match_here _ s) as [[m1 gs1]|] eqn:H2; [|discriminate].
    clear H. rewrite ReText.match_here_cons in H2.
    apply ReFacts.backtrack_some in H2 as (k2 & Hk2 & H2).
    unfold Re.run in Hk2. cbn [Re.star Re.cls Re.rmin Re.rmax] in Hk2.
    destruct (Re.match_here _ (skipn k2 s)) as [[m2 gs2]|] eqn:H3;
      [|discriminate].
    clear H2. rewrite ReText.match_here_cons in H3.
    apply ReFacts.backtrack_some in H3 as (k3 & Hk3 & _).
    unfold Re.run in Hk3. cbn [Re.at_least Re.cls Re.rmin Re.rmax] in Hk3.
    destruct (span_firstn is_space k2 s) as [Hws _]; [lia|].
    destruct (span_firstn is_digit k3 (skipn k2 s)) as [Hds Hlen]; [lia|].
    exists c, (firstn k2 s), (firstn k3 (skipn k2 s)),
      (skipn k3 (skipn k2 s)).
    rewrite !firstn_skipn. repeat split; auto; [|lia].
    apply orb_true_iff in Ec as [E|E]; apply Ascii.eqb_eq in E; auto.
  - intros (c & ws & ds & post & -> & Hc & Hws & Hds & Hlen).
    assert (Hne : Re.match_here
                    [Re.exactly 1 (fun c => Ascii.eqb c "H" || Ascii.eqb c "V");
                     Re.star is_space; Re.at_least 3 is_digit]
                    (c :: ws ++ ds ++ post) <> None).
    { rewrite ReText.match_here_cons.
      apply (backtrack_found _ _ 1).
      - unfold Re.run. cbn [Re.exactly Re.cls Re.rmin Re.rmax Re.span].
        replace (Ascii.eqb c "H" || Ascii.eqb c "V") with true
          by (destruct Hc as [-> | ->]; reflexivity).
        lia.
      - cbn [skipn]. rewrite ReText.match_here_cons.
        match goal with
        | |- match ?x with _ => _ end <> None =>
            assert (Hx : x <> None); [|destruct x as [[? ?]|]; congruence]
        end.
        apply (backtrack_found _ _ (List.length ws)).
        + unfold Re.run. cbn [Re.star Re.cls Re.rmin Re.rmax].
          split; [lia|]. now apply span_prefix.
        + rewrite skipn_app, skipn_all, Nat.sub_diag. cbn [app skipn].
          rewrite ReText.match_here_cons.
          match goal with
          | |- match ?x with _ => _ end <> None =>
              assert (Hy : x <> None); [|destruct x as [[? ?]|]; congruence]
          end.
          apply (backtrack_found _ _ (List.length ds)).
          * unfold Re.run. cbn [Re.at_least Re.cls Re.rmin Re.rmax].
            split; [lia|]. now apply span_prefix.
          * cbn [Re.match_here]. discriminate. }
    destruct (Re.match_here _ _) as [[n gs]|]; [eauto|contradiction].
Qed.

Lemma found_hv (line : str) :
  found (Re.search hv_pattern line) = true <-> hv_digits line.
Proof.
  rewrite found_search. unfold hv_digits. split.
  - intros (pre & post & n & gs & -> & H).
    destruct (proj1 (match_here_hv post)) as (c & ws & ds & rest & -> & Hr);
      [eauto|].
    exists pre, c, ws, ds, rest. now split.
  - intros (pre & c & ws & ds & rest & -> & Hr).
    destruct (proj2 (match_here_hv (c :: ws ++ ds ++ rest))) as (n & gs & H).
    + exists c, ws, ds, rest. now split.
    + now exists pre, (c :: ws ++ ds ++ rest), n, gs.
Qed.

Lemma remove_svg_background_lines (lines : list str) :
  lines <> [] ->
  Forall (Forall (fun c => Ascii.eqb c nl = false)) lines ->
  _remove_svg_background (join_with nl lines)
  = join_with nl (kept_lines lines).
Proof.
  intros Hne H. unfold _remove_svg_background, kept_lines.
  now rewrite split_join.
Qed.

(** C4 (as amended): the background removal keeps, in order and unchanged,
    the lines that are not background lines; a line that holds a rectangle
    element (and no path element) is left out exactly when it holds a pure
    white fill and holds [x='0'] or [y='0'], either of the two. *)
Theorem remove_svg_background_rect :
  (forall lines,
      lines <> [] ->
      Forall (Forall (fun c => Ascii.eqb c nl = false)) lines ->
      _remove_svg_background (join_with nl lines)
      = join_with nl (kept_lines lines))
  /\ (forall line,
         contains (lit "<rect") line = true ->
         contains (lit "<path") line = false ->
         (is_background_line line = true <->
          white_fill line
          /\ (occurs (sq "x='0'") line \/ occurs (sq "y='0'") line))).
Proof.
  split; [exact remove_svg_background_lines|].
  intros line Hr Hp. unfold is_background_line. rewrite Hr, Hp.
  rewrite <- is_white_spec. unfold occurs. rewrite <- !contains_spec.
  destruct (is_white line); cbn [andb].
  - destruct (contains (sq "x='0'") line), (contains (sq "y='0'") line);
      cbn; intuition congruence.
  - intuition congruence.
Qed.

Lemma remove_svg_background_rect_witness :
  _remove_svg_background
    (join_with nl [lit "<svg>"; sq "<rect x='0' y='0' fill='white'/>";
                   lit "</svg>"])
  = join_with nl [lit "<svg>"; lit "</svg>"]
  /\ is_background_line (sq "<rect x='0' y='0' fill='white'/>") = true.
Proof.
  split.
  - refine (eq_trans
              (proj1 remove_svg_background_rect
                 [lit "<svg>"; sq "<rect x='0' y='0' fill='white'/>";
                  lit "</svg>"] _ _) _).
    + discriminate.
    + repeat constructor.
    + reflexivity.
  - apply (proj2 remove_svg_background_rect
             (sq "<rect x='0' y='0' fill='white'/>") eq_refl eq_refl).
    split.
    + right. right. right. now exists (sq "<rect x='0' y='0' "), (lit "/>").
    + left. now exists (lit "<rect "), (sq " y='0' fill='white'/>").
Defined.

(** C4 (as stated) fails: a white rectangle at [x='0'] but not at [y='0']
    does not start at the origin, and is left out all the same. *)
Lemma remove_svg_background_rect_x_only :
  let line := sq "<rect x='0' y='50' width='10' height='10' fill='#ffffff'/>" in
  contains (lit "<rect") line = true
  /\ white_fill line
  /\ ~ occurs (sq "y='0'") line
  /\ is_background_line line = true
  /\ _remove_svg_background
       (join_with nl [lit "<svg>"; line; lit "</svg>"])
     = join_with nl [lit "<svg>"; lit "</svg>"].
Proof.
  cbv zeta. split; [reflexivity|]. split; [|split; [|split]].
  - left. now exists (sq "<rect x='0' y='50' width='10' height='10' "),
      (lit "/>").
  - intros H. apply contains_spec in H. vm_compute in H. discriminate.
  - reflexivity.
  - reflexivity.
Qed.

(** C5 (as amended): a line that holds a path element (and no rectangle
    element) is left out exactly when it holds a pure white fill and,
    anywhere in it, an [H] or a [V] followed after optional white space by
    three or more decimal digits. *)
Theorem remove_svg_background_path :
  (forall lines,
      lines <> [] ->
      Forall (Forall (fun c => Ascii.eqb c nl = false)) lines ->
      _remove_svg_background (join_with nl lines)
      = join_with nl (kept_lines lines))
  /\ (forall line,
         contains (lit "<path") line = true ->
         contains (lit "<rect") line = false ->
         (is_background_line line = true <->
          white_fill line /\ hv_digits line)).
Proof.
  split; [exact remove_svg_background_lines|].
  intros line Hp Hr. unfold is_background_line. rewrite Hr, Hp.
  rewrite <- is_white_spec, <- found_hv. cbn [andb].
  destruct (is_white line); intuition congruence.
Qed.

Lemma remove_svg_background_path_witness :
  is_background_line (sq "<path d='M0 0H612V792H0Z' fill='#ffffff'/>") = true.
Proof.
  apply (proj2 remove_svg_background_path
           (sq "<path d='M0 0H612V792H0Z' fill='#ffffff'/>") eq_refl eq_refl).
  split.
  - left. now exists (sq "<path d='M0 0H612V792H0Z' "), (lit "/>").
  - exists (sq "<path d='M0 0"), "H"%char, [], (lit "612"),
      (sq "V792H0Z' fill='#ffffff'/>").
    repeat split; auto; repeat constructor.
Defined.

(** C5 (as stated) fails: the white path below holds the horizontal line
    command [H-612], of magnitude 612, and is kept. *)
Lemma remove_svg_background_path_signed :
  let line := sq "<path d='M0 0H-612V-792H0Z' fill='#ffffff'/>" in
  contains (lit "<path") line = true
  /\ white_fill line
  /\ hv_magnitude line
  /\ is_background_line line = false
  /\ _remove_svg_background line = line.
Proof.
  cbv zeta. split; [reflexivity|]. split; [|split; [|split]].
  - left. now exists (sq "<path d='M0 0H-612V-792H0Z' "), (lit "/>").
  - exists (sq "<path d='M0 0"), "H"%char, [], ["-"%char], (lit "612"),
      (sq "V-792H0Z' fill='#ffffff'/>").
    repeat split; auto; repeat constructor.
  - reflexivity.
  - reflexivity.
Qed.

(** ** No-op and locality of the passes *)






(** ** The kerning merge *)

(** C3 fails on a text element that names its font before its position:
    the search for the [y] list stops at the end of [font-family], whose
    value then replaces the [y] coordinates. *)
Theorem remove_svg_kerning_font_family :
  _remove_svg_kerning
    (sq "<text font-family='Arial' x='10 20 30' y='50 60 70'>abc</text>")
  = Ok (sq "<text font-family='Arial' x='10' y='Arial'>abc</text>").
Proof. vm_compute. reflexivity. Qed.

(** On an element that carries nothing but the two lists, the first pair
    is kept. *)
Example remove_svg_kerning_plain :
  _remove_svg_kerning (sq "<text x='10 20 30' y='50 60 70'>abc</text>")
  = Ok (sq "<text x='10' y='50'>abc</text>").
Proof. vm_compute. reflexivity. Qed.

(** * Further properties *)

(** ** Recent files *)

Lemma str_eqb_eq (a b : str) : str_eqb a b = true <-> a = b.
Proof.
  unfold str_eqb. destruct (list_eq_dec ascii_dec a b); split; congruence.
Qed.

Lemma str_eqb_refl (a : str) : str_eqb a a = true.
Proof. now apply str_eqb_eq. Qed.

Lemma remove_first_in (x y : str) (l : list str) :
  In y (remove_first x l) -> In y l.
Proof.
  induction l as [|z l IH]; cbn [remove_first]; [auto|].
  destruct (str_eqb x z); cbn [In]; intuition.
Qed.

Lemma remove_first_nodup (x : str) (l : list str) :
  NoDup l -> NoDup (remove_first x l) /\ ~ In x (remove_first x l).
Proof.
  induction 1 as [|z l Hz Hl IH]; cbn [remove_first].
  - split; [constructor|auto].
  - destruct (str_eqb x z) eqn:E.
    + apply str_eqb_eq in E as <-. now split.
    + destruct IH as [IH1 IH2]. split.
      * constructor; [|assumption].
        intros H. apply Hz. eapply remove_first_in, H.
      * intros [H|H]; [|contradiction].
        subst z. now rewrite str_eqb_refl in E.
Qed.

Lemma in_list_spec (x : str) (l : list str) : in_list x l = true <-> In x l.
Proof.
  unfold in_list. rewrite existsb_exists. split.
  - intros (y & Hy & E). apply str_eqb_eq in E. now subst.
  - intros H. exists x. split; [assumption|apply str_eqb_refl].
Qed.

Lemma in_firstn {A : Type} (n : nat) (l : list A) (x : A) :
  In x (firstn n l) -> In x l.
Proof.
  revert n. induction l as [|a l IH]; intros n.
  - now rewrite firstn_nil.
  - destruct n as [|n]; [contradiction|]. cbn [firstn In].
    intros [H|H]; [now left|right; eapply IH, H].
Qed.

Lemma nodup_firstn {A : Type} (n : nat) (l : list A) :
  NoDup l -> NoDup (firstn n l).
Proof.
  revert n. induction l as [|a l IH]; intros n H.
  - now rewrite firstn_nil.
  - destruct n as [|n]; [constructor|]. cbn [firstn].
    inversion H as [|? ? Ha Hl]; subst. constructor.
    + intros Hin. apply Ha. eapply in_firstn, Hin.
    + now apply IH.
Qed.

(** X1: adding a file to a recent list without duplicates gives a list
    that starts with the file, has at most ten entries, has no duplicates,
    and holds nothing but the file and former entries. *)
Theorem add_to_recent_invariant (absolute : str -> str)
    (recent_files : list str) (path : str) :
  NoDup recent_files ->
  let updated := _add_to_recent absolute recent_files path in
  hd_error updated = Some (absolute path)
  /\ List.length updated <= 10
  /\ NoDup updated
  /\ (forall q, In q updated -> q = absolute path \/ In q recent_files).
Proof.
  intros Hnd. cbv zeta. unfold _add_to_recent.
  set (a := absolute path).
  set (rest := if in_list a recent_files then remove_first a recent_files
               else recent_files).
  assert (Hrest : NoDup rest /\ ~ In a rest
                  /\ forall q, In q rest -> In q recent_files).
  { unfold rest. destruct (in_list a recent_files) eqn:E.
    - destruct (remove_first_nodup a recent_files Hnd) as [H1 H2].
      repeat split; auto. intros q. apply remove_first_in.
    - repeat split; auto. intros H. apply in_list_spec in H. congruence. }
  destruct Hrest as (H1 & H2 & H3).
  change (firstn 10 (a :: rest)) with (a :: firstn 9 rest).
  repeat split.
  - cbn [List.length]. pose proof (firstn_le_length 9 rest). lia.
  - constructor.
    + intros H. apply H2. eapply in_firstn, H.
    + now apply nodup_firstn.
  - intros q [H|H]; [now left|right]. apply H3. eapply in_firstn, H.
Qed.

Lemma add_to_recent_invariant_witness :
  _add_to_recent (fun p => p) [lit "a.pdf"; lit "b.pdf"] (lit "b.pdf")
  = [lit "b.pdf"; lit "a.pdf"]
  /\ NoDup (_add_to_recent (fun p => p) [lit "a.pdf"; lit "b.pdf"]
              (lit "b.pdf")).
Proof.
  split; [reflexivity|].
  refine (proj1 (proj2 (proj2 (add_to_recent_invariant (fun p => p)
                                 [lit "a.pdf"; lit "b.pdf"] (lit "b.pdf") _)))).
  repeat constructor; cbn; intuition discriminate.
Defined.

(** X2: adding the same file a second time changes nothing. *)
Theorem add_to_recent_idempotent (absolute : str -> str)
    (recent_files : list str) (path : str) :
  _add_to_recent absolute (_add_to_recent absolute recent_files path) path
  = _add_to_recent absolute recent_files path.
Proof.
  unfold _add_to_recent.
  set (a := absolute path).
  set (rest := if in_list a recent_files then remove_first a recent_files
               else recent_files).
  change (firstn 10 (a :: rest)) with (a :: firstn 9 rest).
  assert (E : in_list a (a :: firstn 9 rest) = true)
    by (apply in_list_spec; now left).
  rewrite E. cbn [remove_first]. rewrite str_eqb_refl.
  change (firstn 10 (a :: firstn 9 rest)) with (a :: firstn 9 (firstn 9 rest)).
  now rewrite firstn_firstn.
Qed.

(** ** Pages *)

Section Pages.

Variable Doc : Type.
Variable page_count : Doc -> Z.
Variable page_rect_width : Doc -> Z -> float.
Variable pixmap_size : Doc -> Z -> float -> Z * Z.

(** The rendering assigns neither the document nor the page index. *)
Lemma rendered_keeps_page (self : App Doc) (stored : option float)
    (w h : Z) :
  doc (rendered page_rect_width pixmap_size self stored w h) = doc self
  /\ page_index (rendered page_rect_width pixmap_size self stored w h)
     = page_index self.
Proof.
  unfold rendered, _render_current_page.
  destruct (doc self) as [d|] eqn:Hd; [|now rewrite Hd].
  destruct (_ || _); [now rewrite Hd|].
  match goal with
  | |- context [if auto_fit self then ?a else ?b] =>
      destruct (if auto_fit self then a else b) as [[base|]|]
  end; try (now rewrite Hd).
  destruct (pixmap_size _ _ _). split; reflexivity.
Qed.

(** X3: no way of turning pages leaves the document: after [prev_page],
    [next_page], [goto_page] on any text and the jump to the page of a URL
    fragment, the page index still designates a page. *)
Theorem navigation_keeps_page_in_range (self : App Doc) :
  page_in_range page_count self ->
  page_in_range page_count (fst (prev_page self))
  /\ page_in_range page_count (fst (next_page page_count self))
  /\ (forall entry,
         page_in_range page_count (fst (fst (goto_page page_count self entry))))
  /\ (forall target,
         page_in_range page_count
           (fst (jump_to_target page_count self target))).
Proof.
  unfold page_in_range, prev_page, next_page, goto_page, jump_to_target.
  intros H. destruct (doc self) as [d|] eqn:Hd.
  - repeat split.
    + destruct (page_index self >? 0)%Z eqn:E; cbn; rewrite Hd; [|assumption].
      apply Z.gtb_lt in E. lia.
    + destruct (page_index self <? page_count d - 1)%Z eqn:E; cbn;
        rewrite Hd; [|assumption].
      apply Z.ltb_lt in E. lia.
    + intros entry. destruct (py_int entry) as [n|e]; cbn;
        [|now rewrite Hd].
      destruct ((1 <=? n)%Z && (n <=? page_count d)%Z) eqn:E; cbn;
        rewrite Hd; [|assumption].
      apply andb_true_iff in E as [E1 E2].
      apply Z.leb_le in E1. apply Z.leb_le in E2. lia.
    + intros [t|]; [|cbn; now rewrite Hd].
      destruct ((0 <=? t)%Z && (t <? page_count d)%Z) eqn:E; cbn;
        rewrite Hd; [|assumption].
      apply andb_true_iff in E as [E1 E2].
      apply Z.leb_le in E1. apply Z.ltb_lt in E2. lia.
  - repeat split; try intros []; cbn; now rewrite Hd.
Qed.

Lemma prev_page_moves (self : App Doc) (d : Doc) :
  doc self = Some d -> (0 < page_index self)%Z ->
  prev_page self = (set_page self (page_index self - 1), true).
Proof.
  intros Hd H. unfold prev_page. rewrite Hd.
  now replace (page_index self >? 0)%Z with true
    by (symmetry; apply Z.gtb_lt; lia).
Qed.

Lemma next_page_moves (self : App Doc) (d : Doc) :
  doc self = Some d -> (page_index self < page_count d - 1)%Z ->
  next_page page_count self = (set_page self (page_index self + 1), true).
Proof.
  intros Hd H. unfold next_page. rewrite Hd.
  now replace (page_index self <? page_count d - 1)%Z with true
    by (symmetry; apply Z.ltb_lt; lia).
Qed.

(** X4: turning one page back and one page forward, or forward and back,
    shows the page one started from, whenever the first step moves; each
    handler ends with its rendering, whatever that paints. *)
Theorem prev_next_round_trip (self : App Doc) (d : Doc)
    (stored stored' : option float) (w h w' h' : Z) :
  doc self = Some d ->
  page_in_range page_count self ->
  ((0 < page_index self)%Z ->
   let back :=
     rendered page_rect_width pixmap_size (fst (prev_page self)) stored w h in
   let forth :=
     rendered page_rect_width pixmap_size (fst (next_page page_count back))
       stored' w' h' in
   snd (prev_page self) = true /\ snd (next_page page_count back) = true
   /\ doc forth = Some d /\ page_index forth = page_index self)
  /\ ((page_index self < page_count d - 1)%Z ->
      let forth :=
        rendered page_rect_width pixmap_size
          (fst (next_page page_count self)) stored w h in
      let back :=
        rendered page_rect_width pixmap_size (fst (prev_page forth))
          stored' w' h' in
      snd (next_page page_count self) = true /\ snd (prev_page forth) = true
      /\ doc back = Some d /\ page_index back = page_index self).
Proof.
  intros Hd Hr. unfold page_in_range in Hr. rewrite Hd in Hr.
  split; intros H; cbv zeta.
  - rewrite (prev_page_moves self d Hd H). cbn [fst snd].
    destruct (rendered_keeps_page (set_page self (page_index self - 1))
                stored w h) as [D1 P1].
    revert D1 P1. generalize (rendered page_rect_width pixmap_size
                                (set_page self (page_index self - 1))
                                stored w h).
    intros back D1 P1. cbn [doc page_index set_page] in D1, P1.
    rewrite Hd in D1.
    rewrite (next_page_moves back d D1) by lia. cbn [fst snd].
    destruct (rendered_keeps_page (set_page back (page_index back + 1))
                stored' w' h') as [D2 P2].
    rewrite D2, P2. cbn [doc page_index set_page].
    repeat split; [assumption|lia].
  - rewrite (next_page_moves self d Hd H). cbn [fst snd].
    destruct (rendered_keeps_page (set_page self (page_index self + 1))
                stored w h) as [D1 P1].
    revert D1 P1. generalize (rendered page_rect_width pixmap_size
                                (set_page self (page_index self + 1))
                                stored w h).
    intros forth D1 P1. cbn [doc page_index set_page] in D1, P1.
    rewrite Hd in D1.
    rewrite (prev_page_moves forth d D1) by lia. cbn [fst snd].
    destruct (rendered_keeps_page (set_page forth (page_index forth - 1))
                stored' w' h') as [D2 P2].
    rewrite D2, P2. cbn [doc page_index set_page].
    repeat split; [assumption|lia].
Qed.

(** X5: in a document with pages, typing the number [n] in the page field
    goes to page [n] (index [n - 1]) when the document has such a page, and
    otherwise leaves the state alone and tells the range; a number of more
    than 4300 digits, which [int] does not convert, and an empty field are
    refused as not a page number. *)
Theorem goto_page_number (self : App Doc) (d : Doc) (n : Z) :
  doc self = Some d ->
  (0 < page_count d)%Z ->
  (int_text_ok n = true -> (1 <= n <= page_count d)%Z ->
   goto_page page_count self (dec n) = (set_page self (n - 1), true, None))
  /\ (int_text_ok n = true -> ~ (1 <= n <= page_count d)%Z ->
      goto_page page_count self (dec n)
      = (self, false, Some (PageOutOfRange (page_count d))))
  /\ (int_text_ok n = false ->
      goto_page page_count self (dec n)
      = (self, false, Some InvalidPageNumber))
  /\ goto_page page_count self [] = (self, false, Some InvalidPageNumber).
Proof.
  intros Hd _. unfold goto_page. rewrite Hd, py_int_dec.
  split; [|split; [|split]].
  - intros -> H.
    replace ((1 <=? n)%Z && (n <=? page_count d)%Z) with true; [reflexivity|].
    symmetry. apply andb_true_iff. split; apply Z.leb_le; lia.
  - intros -> H.
    replace ((1 <=? n)%Z && (n <=? page_count d)%Z) with false; [reflexivity|].
    symmetry. apply andb_false_iff.
    destruct (Z_le_dec 1 n); [right|left]; apply Z.leb_gt; lia.
  - now intros ->.
  - reflexivity.
Qed.

Lemma dec_no_equals (n : Z) :
  Forall (fun c => Ascii.eqb c "=" = false) (dec n).
Proof.
  eapply Forall_impl; [|apply dec_chars].
  intros c. destruct c as [[] [] [] [] [] [] [] []]; vm_compute; congruence.
Qed.

(** X6: the URL fragment [page=n] asks for the page of index [n - 1], and
    in a document with pages the jump is made exactly when the document
    has a page [n]; a number of more than 4300 digits, which [int] does
    not convert, asks for no page. *)
Theorem fragment_page_jump (self : App Doc) (d : Doc) (n : Z) :
  doc self = Some d ->
  (0 < page_count d)%Z ->
  target_page_of_fragment (lit "page=" ++ dec n)
  = (if int_text_ok n then Some (n - 1)%Z else None)
  /\ (int_text_ok n = true -> (1 <= n <= page_count d)%Z ->
      jump_to_target page_count self
        (target_page_of_fragment (lit "page=" ++ dec n))
      = (set_page self (n - 1), true))
  /\ (int_text_ok n = false \/ ~ (1 <= n <= page_count d)%Z ->
      jump_to_target page_count self
        (target_page_of_fragment (lit "page=" ++ dec n))
      = (self, false)).
Proof.
  intros Hd _.
  assert (E : target_page_of_fragment (lit "page=" ++ dec n)
              = if int_text_ok n then Some (n - 1)%Z else None).
  { unfold target_page_of_fragment.
    rewrite starts_with_app.
    change (lit "page=" ++ dec n) with (lit "page" ++ "="%char :: dec n).
    rewrite split_on_app by (repeat constructor).
    rewrite (split_on_clean _ _ (dec_no_equals n)), py_int_dec.
    now destruct (int_text_ok n). }
  rewrite E. unfold jump_to_target. split; [reflexivity|]. split.
  - intros -> H. rewrite Hd.
    replace ((0 <=? n - 1)%Z && (n - 1 <? page_count d)%Z) with true;
      [reflexivity|].
    symmetry. apply andb_true_iff.
    split; [apply Z.leb_le|apply Z.ltb_lt]; lia.
  - intros H. destruct (int_text_ok n); [|reflexivity].
    destruct H as [H|H]; [discriminate|]. rewrite Hd.
    replace ((0 <=? n - 1)%Z && (n - 1 <? page_count d)%Z) with false;
      [reflexivity|].
    symmetry. apply andb_false_iff.
    destruct (Z_le_dec 1 n); [right; apply Z.ltb_ge|left; apply Z.leb_gt]; lia.
Qed.

End Pages.

Lemma navigation_keeps_page_in_range_witness :
  page_in_range (fun _ : unit => 3%Z)
    (fst (next_page (fun _ : unit => 3%Z) app_idle)).
Proof.
  refine (proj1 (proj2 (navigation_keeps_page_in_range unit
                          (fun _ => 3%Z) app_idle _))).
  cbn. lia.
Defined.

Lemma prev_next_round_trip_witness :
  page_index
    (rendered page_100 pixmap_10
       (fst (prev_page
               (rendered page_100 pixmap_10
                  (fst (next_page (fun _ : unit => 3%Z) app_idle))
                  None 132 100)))
       None 132 100)
  = page_index app_idle.
Proof.
  refine (proj2 (proj2 (proj2
            (proj2 (prev_next_round_trip unit (fun _ => 3%Z) page_100
                      pixmap_10 app_idle tt None None 132 100 132 100
                      eq_refl _) _)))); cbn; lia.
Defined.

Lemma goto_page_number_witness :
  goto_page (fun _ : unit => 3%Z) app_idle (lit "2")
  = (set_page app_idle 1, true, None).
Proof.
  refine (proj1 (goto_page_number unit (fun _ => 3%Z) app_idle tt 2
                   eq_refl eq_refl) eq_refl _).
  cbn. lia.
Defined.

Lemma fragment_page_jump_witness :
  jump_to_target (fun _ : unit => 3%Z) app_idle
    (target_page_of_fragment (lit "page=3"))
  = (set_page app_idle 2, true).
Proof.
  refine (proj1 (proj2 (fragment_page_jump unit (fun _ => 3%Z) app_idle tt 3
                          eq_refl eq_refl)) eq_refl _).
  cbn. lia.
Defined.

(** ** The selection *)

(** X7: a selection rectangle, when there is one, lies inside the page
    image and has its corners in order, at least one pixel apart. *)
Theorem selection_rect_inside_image (Doc : Type) (self : App Doc)
    (a b c d w h : Z) :
  _get_selection_rect_image_coords self = Some (a, b, c, d) ->
  photo self = Some (w, h) ->
  (0 <= a /\ a + 1 <= c /\ c <= w /\ 0 <= b /\ b + 1 <= d /\ d <= h)%Z.
Proof.
  unfold _get_selection_rect_image_coords.
  destruct (sel_start self) as [[sx0 sy0]|]; [|discriminate].
  destruct (sel_end self) as [[sx1 sy1]|]; [|discriminate].
  intros H Hp. rewrite Hp in H. cbv zeta in H.
  pose proof (clamp_bounds sx0 w) as Ha0.
  pose proof (clamp_bounds sx1 w) as Ha1.
  pose proof (clamp_bounds sy0 h) as Hb0.
  pose proof (clamp_bounds sy1 h) as Hb1.
  revert H Ha0 Ha1 Hb0 Hb1.
  generalize (Z.min (Z.max 0 sx0) w) (Z.min (Z.max 0 sx1) w)
             (Z.min (Z.max 0 sy0) h) (Z.min (Z.max 0 sy1) h).
  intros a0 a1 b0 b1 H Ha0 Ha1 Hb0 Hb1.
  destruct (_ || _) eqn:E; [discriminate|].
  injection H as <- <- <- <-.
  apply orb_false_iff in E. rewrite !Z.ltb_ge in E. destruct E as [Ex Ey].
  clear Hp sx0 sy0 sx1 sy1.
  assert (X : (0 <= Z.min a0 a1 /\ Z.min a0 a1 + 1 <= Z.max a0 a1
               /\ Z.max a0 a1 <= w)%Z) by (clear Hb0 Hb1 Ey; lia).
  assert (Y : (0 <= Z.min b0 b1 /\ Z.min b0 b1 + 1 <= Z.max b0 b1
               /\ Z.max b0 b1 <= h)%Z) by (clear Ha0 Ha1 Ex X; lia).
  tauto.
Qed.

Lemma selection_rect_inside_image_witness :
  (0 <= 0 /\ 0 + 1 <= 1 /\ 1 <= 10 /\ 0 <= 0 /\ 0 + 1 <= 1 /\ 1 <= 10)%Z.
Proof.
  exact (selection_rect_inside_image unit
           (app_at_scale 1.0 true false false false) 0 0 1 1 10 10
           eq_refl eq_refl).
Defined.

(** X8: the direction of the drag does not matter: exchanging the two
    corners gives the same selection rectangle. *)
Theorem selection_rect_symmetric (Doc : Type) (self : App Doc) :
  _get_selection_rect_image_coords
    (set_selection self (sel_end self) (sel_start self))
  = _get_selection_rect_image_coords self.
Proof.
  unfold _get_selection_rect_image_coords, set_selection. cbn.
  destruct (sel_start self) as [[sx0 sy0]|], (sel_end self) as [[sx1 sy1]|];
    try reflexivity.
  destruct (photo self) as [[w h]|]; [|reflexivity]. cbv zeta.
  rewrite (Z.min_comm (Z.min (Z.max 0 sx1) w)).
  rewrite (Z.min_comm (Z.min (Z.max 0 sy1) h)).
  rewrite (Z.max_comm (Z.min (Z.max 0 sx1) w)).
  rewrite (Z.max_comm (Z.min (Z.max 0 sy1) h)).
  reflexivity.
Qed.

(** X9: the rectangle drawn on the canvas is the selection rectangle
    moved by the origin of the image: what is exported is what is shown. *)
Theorem drawn_rect_is_selection (Doc : Type) (self : App Doc)
    (a b c d ox oy : Z) :
  _get_selection_rect_image_coords self = Some (a, b, c, d) ->
  _draw_selection self (Some (ox, oy))
  = Some (a + ox, b + oy, c + ox, d + oy)%Z.
Proof.
  unfold _get_selection_rect_image_coords, _draw_selection.
  destruct (sel_start self) as [[sx0 sy0]|]; [|discriminate].
  destruct (sel_end self) as [[sx1 sy1]|]; [|discriminate].
  destruct (photo self) as [[w h]|]; [|discriminate]. cbv zeta.
  destruct (_ || _); [discriminate|].
  now intros [= <- <- <- <-].
Qed.

Lemma drawn_rect_is_selection_witness :
  _draw_selection (app_at_scale 1.0 true false false false) (Some (3, 4)%Z)
  = Some (3, 4, 4, 5)%Z.
Proof.
  exact (drawn_rect_is_selection unit
           (app_at_scale 1.0 true false false false) 0 0 1 1 3 4 eq_refl).
Defined.

(** ** The mouse, the rendering and the export *)

Section Canvas.

Variable Doc : Type.
Variable rect_width rect_height : Rect -> float.
Variable rect_true : Rect -> bool.
Variable get_svg_image : Page Doc -> bool -> str.
Variable page_rect_width : Doc -> Z -> float.
Variable pixmap_size : Doc -> Z -> float -> Z * Z.

Lemma export_without_selection (self : App Doc) (d : Doc) :
  doc self = Some d ->
  _get_selection_rect_image_coords self = None ->
  _svg_from_selection rect_width rect_height rect_true get_svg_image self
  = Raise (RuntimeError "No valid selection to export").
Proof.
  intros Hd Hs. unfold _svg_from_selection, clipped_page.
  rewrite Hd.
  assert (E : _selection_pdf_rect self = Ok None)
    by (apply selection_pdf_rect_none; now right).
  now rewrite E.
Qed.

(** X10: a click inside the page image, without a drag, leaves no
    selection: whatever was selected before, the export then stops with
    the message that there is no valid selection. *)
Theorem click_discards_selection (self : App Doc) (d : Doc) (ox oy : Z)
    (event : MouseEvent) :
  doc self = Some d ->
  _point_inside_image self (ev_x event - ox) (ev_y event - oy) = true ->
  _svg_from_selection rect_width rect_height rect_true get_svg_image
    (_on_mouse_down self (Some (ox, oy)) event)
  = Raise (RuntimeError "No valid selection to export").
Proof.
  intros Hd Hin. apply export_without_selection with (d := d).
  - unfold _on_mouse_down. rewrite Hd, Hin. exact Hd.
  - unfold _on_mouse_down. rewrite Hd, Hin. cbn [negb].
    unfold _get_selection_rect_image_coords, set_selection. cbn.
    destruct (photo self) as [[w h]|]; [|reflexivity]. cbv zeta.
    rewrite Z.min_id, Z.max_id, Z.sub_diag. reflexivity.
Qed.

(** X11: a press inside the page image followed by a drag selects the
    rectangle between the pressed point and the dragged point brought back
    into the image, whichever way the drag goes; there is no selection
    when the two agree in one coordinate. *)
Theorem drag_selects_clamped_rect (self : App Doc) (d : Doc)
    (w h ox oy px py qx qy : Z) :
  doc self = Some d ->
  photo self = Some (w, h) ->
  (0 <= px < w)%Z -> (0 <= py < h)%Z ->
  _get_selection_rect_image_coords
    (_on_mouse_drag
       (_on_mouse_down self (Some (ox, oy)) (mkMouse (px + ox) (py + oy)))
       (Some (ox, oy)) (mkMouse (qx + ox) (qy + oy)))
  = if (clamp_px qx w =? px)%Z || (clamp_px qy h =? py)%Z then None
    else Some (Z.min px (clamp_px qx w), Z.min py (clamp_px qy h),
               Z.max px (clamp_px qx w), Z.max py (clamp_px qy h)).
Proof.
  intros Hd Hp Hx Hy.
  unfold _on_mouse_down, _point_inside_image. rewrite Hd, Hp.
  cbn [ev_x ev_y].
  replace (px + ox - ox)%Z with px by lia.
  replace (py + oy - oy)%Z with py by lia.
  replace ((0 <=? px)%Z && (px <? w)%Z && (0 <=? py)%Z && (py <? h)%Z)
    with true.
  2:{ symmetry. rewrite !andb_true_iff, !Z.leb_le, !Z.ltb_lt. lia. }
  cbn [negb]. unfold _on_mouse_drag, set_selection. cbn.
  replace (qx + ox - ox)%Z with qx by lia.
  replace (qy + oy - oy)%Z with qy by lia.
  unfold _get_selection_rect_image_coords. cbn. rewrite Hp. cbv zeta.
  rewrite (Z.max_r 0 px), (Z.max_r 0 py) by lia.
  rewrite (Z.max_r 0 px), (Z.max_r 0 py) by lia.
  rewrite (Z.min_l px w), (Z.min_l py h) by lia.
  fold (clamp_px qx w). fold (clamp_px qy h).
  generalize (clamp_px qx w) (clamp_px qy h). intros cx cy.
  destruct (cx =? px)%Z eqn:Ex.
  - apply Z.eqb_eq in Ex. subst cx.
    rewrite Z.min_id, Z.max_id, Z.sub_diag. reflexivity.
  - apply Z.eqb_neq in Ex.
    replace (Z.max px cx - Z.min px cx <? 1)%Z with false
      by (symmetry; apply Z.ltb_ge; lia).
    destruct (cy =? py)%Z eqn:Ey.
    + apply Z.eqb_eq in Ey. subst cy.
      rewrite Z.min_id, Z.max_id, Z.sub_diag. reflexivity.
    + apply Z.eqb_neq in Ey.
      replace (Z.max py cy - Z.min py cy <? 1)%Z with false
        by (symmetry; apply Z.ltb_ge; lia).
      reflexivity.
Qed.

(** X12: every rendering of the page starts from no selection: the state
    it leaves has the same document, page, zoom level and fitting mode,
    shows the page at the base scale times the zoom level, and an export
    from it stops with the message that there is no valid selection. *)
Theorem render_discards_selection (self self' : App Doc)
    (stored : option float) (winfo_width winfo_height : Z) (layout : Layout) :
  _render_current_page page_rect_width pixmap_size self stored
    winfo_width winfo_height = Painted self' layout ->
  doc self' = doc self /\ page_index self' = page_index self
  /\ zoom_level self' = zoom_level self /\ auto_fit self' = auto_fit self
  /\ scale self' = (base_scale layout * zoom_level self)%float
  /\ _svg_from_selection rect_width rect_height rect_true get_svg_image self'
     = Raise (RuntimeError "No valid selection to export").
Proof.
  unfold _render_current_page.
  destruct (doc self) as [d|] eqn:Hd; [|discriminate].
  destruct (_ || _); [discriminate|].
  match goal with
  | |- match ?f with _ => _ end = _ -> _ => destruct f as [[base|]|]
  end; try discriminate.
  destruct (pixmap_size d (page_index self) (base * zoom_level self)%float)
    as [w h].
  intros [= <- <-]. cbn [doc page_index zoom_level auto_fit scale base_scale].
  repeat split; try reflexivity.
Qed.

(** X13: a rendered page image is centred in the width of the canvas to
    within a pixel, is never placed above the top of the canvas, and is
    centred in its height too when it fits. *)
Theorem render_centres_image (self self' : App Doc) (stored : option float)
    (winfo_width winfo_height w h x_off y_off : Z) (base : float) :
  _render_current_page page_rect_width pixmap_size self stored
    winfo_width winfo_height = Painted self' (mkLayout base (x_off, y_off)) ->
  photo self' = Some (w, h) ->
  (1 < winfo_width /\ 1 < winfo_height
   /\ 2 * x_off <= winfo_width - w <= 2 * x_off + 1
   /\ 0 <= y_off
   /\ (h <= winfo_height ->
       2 * y_off <= winfo_height - h <= 2 * y_off + 1))%Z.
Proof.
  unfold _render_current_page.
  destruct (doc self) as [d|] eqn:Hd; [|discriminate].
  destruct (_ || _) eqn:E; [discriminate|].
  apply orb_false_iff in E. rewrite !Z.leb_gt in E. destruct E as [Ew Eh].
  match goal with
  | |- match ?f with _ => _ end = _ -> _ => destruct f as [[b|]|]
  end; try discriminate.
  destruct (pixmap_size d (page_index self) (b * zoom_level self)%float)
    as [w' h'].
  intros [= <- _ <- <-]. cbn [photo]. intros [= -> ->].
  assert (Hw : Z.max winfo_width 1 = winfo_width) by lia.
  assert (Hh : Z.max winfo_height 1 = winfo_height) by lia.
  rewrite Hw, Hh. clear Hw Hh.
  pose proof (Z.div_mod (winfo_width - w) 2 ltac:(lia)) as Dx.
  pose proof (Z.mod_pos_bound (winfo_width - w) 2 ltac:(lia)) as Mx.
  pose proof (Z.div_mod (winfo_height - h) 2 ltac:(lia)) as Dy.
  pose proof (Z.mod_pos_bound (winfo_height - h) 2 ltac:(lia)) as My.
  repeat split; try lia.
Qed.

(** X14: a turn of the wheel that changes the zoom level switches the
    fitting off, so that the rendering that follows keeps the base scale
    of the rendering before, whatever the size of the canvas, and shows
    the page at that base scale times the new zoom level. *)
Theorem zoom_keeps_base_scale (self zoomed self' : App Doc) (event : Event)
    (b : float) (winfo_width winfo_height : Z) (layout : Layout) :
  _on_zoom self event = (zoomed, true) ->
  _render_current_page page_rect_width pixmap_size zoomed (Some b)
    winfo_width winfo_height = Painted self' layout ->
  base_scale layout = b
  /\ scale self' = (b * zoom_level self')%float
  /\ (zoom_level self' =? zoom_level self)%float = false
  /\ auto_fit self' = false.
Proof.
  intros Hz. unfold _on_zoom in Hz.
  destruct (doc self) as [d|] eqn:Hd; [|discriminate].
  match type of Hz with
  | match ?f with _ => _ end = _ => destruct f as [zf|]
  end; [|discriminate].
  cbv zeta in Hz.
  destruct (negb _) eqn:En; [|discriminate].
  injection Hz as <-. apply negb_true_iff in En.
  unfold _render_current_page. cbn [doc auto_fit zoom_level page_index].
  destruct (_ || _); [discriminate|].
  destruct (pixmap_size _ _ _) as [w h].
  intros [= <- <-]. cbn [base_scale scale zoom_level auto_fit].
  repeat split; assumption.
Qed.

End Canvas.

Lemma click_discards_selection_witness :
  _svg_from_selection width_of height_of nonzero_rect render_css_text
    (_on_mouse_down (app_at_scale 1.0 true false false false)
       (Some (3, 4)%Z) (mkMouse 5 5))
  = Raise (RuntimeError "No valid selection to export").
Proof.
  exact (click_discards_selection unit width_of height_of nonzero_rect
           render_css_text (app_at_scale 1.0 true false false false) tt
           3 4 (mkMouse 5 5) eq_refl eq_refl).
Defined.

Lemma drag_selects_clamped_rect_witness :
  _get_selection_rect_image_coords
    (_on_mouse_drag
       (_on_mouse_down app_idle (Some (3, 4)%Z) (mkMouse (2 + 3) (5 + 4)))
       (Some (3, 4)%Z) (mkMouse (40 + 3) (1 + 4)))
  = Some (2, 1, 10, 5)%Z.
Proof.
  refine (drag_selects_clamped_rect unit app_idle tt 10 10 3 4 2 5 40 1
            eq_refl eq_refl _ _); lia.
Defined.

Lemma render_discards_selection_witness :
  _svg_from_selection width_of height_of nonzero_rect render_css_text
    (mkApp (Some tt) 0 1.0 1.0 true (Some (10, 10)%Z) None None
           true false false false)
  = Raise (RuntimeError "No valid selection to export").
Proof.
  refine (proj2 (proj2 (proj2 (proj2 (proj2
            (render_discards_selection unit width_of height_of nonzero_rect
               render_css_text page_100 pixmap_10
               (app_at_scale 1.0 true false false false) _ None 132 100
               (mkLayout 1.0 (61, 45)%Z) _)))))).
  reflexivity.
Defined.

Lemma render_centres_image_witness :
  (1 < 132 /\ 1 < 100 /\ 2 * 61 <= 132 - 10 <= 2 * 61 + 1 /\ 0 <= 45
   /\ (10 <= 100 -> 2 * 45 <= 100 - 10 <= 2 * 45 + 1))%Z.
Proof.
  exact (render_centres_image unit page_100 pixmap_10
           (app_at_scale 1.0 true false false false) _ None 132 100 10 10
           61 45 1.0 eq_refl eq_refl).
Defined.

Lemma zoom_keeps_base_scale_witness :
  base_scale (mkLayout 2.0 (61, 45)%Z) = 2.0%float.
Proof.
  refine (proj1 (zoom_keeps_base_scale unit page_100 pixmap_10
                   app_idle _ _ (mkEvent 4 0) 2.0 132 100
                   (mkLayout 2.0 (61, 45)%Z) eq_refl eq_refl)).
Defined.

(** ** The passes, once more *)

Lemma split_on_parts_clean (sep : ascii) (s : str) :
  Forall (Forall (fun c => Ascii.eqb c sep = false)) (split_on sep s).
Proof.
  induction s as [|c s IH]; cbn [split_on].
  - repeat constructor.
  - destruct (Ascii.eqb c sep) eqn:E.
    + constructor; [constructor|assumption].
    + destruct (split_on sep s) as [|w ws]; [repeat constructor; assumption|].
      inversion IH as [|? ? Hw Hws]; subst.
      constructor; [constructor; assumption|assumption].
Qed.

Lemma filter_keeps_Forall {A : Type} (P : A -> Prop) (f : A -> bool)
    (l : list A) :
  Forall P l -> Forall P (filter f l).
Proof.
  induction 1 as [|x l Hx Hl IH]; cbn [filter]; [constructor|].
  destruct (f x); [constructor|]; assumption.
Qed.

Lemma filter_twice {A : Type} (f : A -> bool) (l : list A) :
  filter f (filter f l) = filter f l.
Proof.
  induction l as [|x l IH]; [reflexivity|]. cbn [filter].
  destruct (f x) eqn:E; [|assumption].
  cbn [filter]. rewrite E. now f_equal.
Qed.

(** X15: the background removal leaves no background line behind, and
    applying it a second time changes nothing, on every document. *)
Theorem remove_svg_background_idempotent (svg : str) :
  Forall (fun line => is_background_line line = false)
         (split_on nl (_remove_svg_background svg))
  /\ _remove_svg_background (_remove_svg_background svg)
     = _remove_svg_background svg.
Proof.
  assert (K : split_on nl (_remove_svg_background svg)
              = match kept_lines (split_on nl svg) with
                | [] => [[]]
                | kept => kept
                end).
  { unfold _remove_svg_background, kept_lines. cbv zeta.
    pose proof (filter_keeps_Forall _
                  (fun l => negb (is_background_line l)) _
                  (split_on_parts_clean nl svg)) as Hc.
    destruct (filter _ (split_on nl svg)) as [|l ls] eqn:E; [reflexivity|].
    apply split_join; [discriminate|assumption]. }
  assert (F : Forall (fun line => is_background_line line = false)
                     (kept_lines (split_on nl svg))).
  { unfold kept_lines. apply Forall_forall. intros l Hl.
    apply filter_In in Hl as [_ Hl]. now apply negb_true_iff. }
  split.
  - rewrite K. destruct (kept_lines (split_on nl svg)); [|assumption].
    repeat constructor.
  - unfold _remove_svg_background at 1. cbv zeta. rewrite K.
    unfold _remove_svg_background, kept_lines. cbv zeta.
    destruct (filter _ (split_on nl svg)) as [|l ls] eqn:E; [reflexivity|].
    rewrite <- E. now rewrite filter_twice.
Qed.

(** ** The hexadecimal colours *)

Lemma span_six (f : ascii -> bool) (s : str) :
  (6 <=? Re.span f s) = true ->
  exists r1 r2 g1 g2 b1 b2 rest,
    s = r1 :: r2 :: g1 :: g2 :: b1 :: b2 :: rest
    /\ f r1 = true /\ f r2 = true /\ f g1 = true
    /\ f g2 = true /\ f b1 = true /\ f b2 = true.
Proof.
  intros H.
  destruct s as [|r1 s]; [discriminate|]. cbn [Re.span] in H.
  destruct (f r1) eqn:E1; [|discriminate].
  destruct s as [|r2 s]; [discriminate|]. cbn [Re.span] in H.
  destruct (f r2) eqn:E2; [|discriminate].
  destruct s as [|g1 s]; [discriminate|]. cbn [Re.span] in H.
  destruct (f g1) eqn:E3; [|discriminate].
  destruct s as [|g2 s]; [discriminate|]. cbn [Re.span] in H.
  destruct (f g2) eqn:E4; [|discriminate].
  destruct s as [|b1 s]; [discriminate|]. cbn [Re.span] in H.
  destruct (f b1) eqn:E5; [|discriminate].
  destruct s as [|b2 s]; [discriminate|]. cbn [Re.span] in H.
  destruct (f b2) eqn:E6; [|discriminate].
  exists r1, r2, g1, g2, b1, b2, s. repeat split; assumption.
Qed.

Lemma hex_text_length (gray : Z) :
  (0 <= gray <= 255)%Z -> List.length (hex_text gray) = 7.
Proof.
  intros H. unfold hex_text. cbn [List.length].
  rewrite !length_app, (fmt_02x_byte gray H). reflexivity.
Qed.

Lemma sub_hex_total (n : nat) :
  forall s, List.length s <= n ->
  exists out, Re.sub_from hex_pattern hex_to_gray 0 s = Ok out
              /\ List.length out = List.length s.
Proof.
  induction n as [|n IH]; intros s Hn.
  - destruct s; [|cbn [List.length] in Hn; lia]. now exists [].
  - destruct s as [|c s]; [now exists []|].
    cbn [List.length] in Hn. cbn [Re.sub_from]. rewrite match_here_hex.
    destruct (Ascii.eqb "#" c && (6 <=? Re.span is_hex s)) eqn:E.
    + apply andb_true_iff in E as [_ E].
      destruct (span_six _ _ E)
        as (r1 & r2 & g1 & g2 & b1 & b2 & rest & -> & H1 & H2 & H3 & H4
            & H5 & H6).
      cbn [firstn]. unfold hex_to_gray at 1, fst_group. cbn [nth Re.groups].
      destruct (luminance_byte (hex_pair r1 r2) (hex_pair g1 g2)
                  (hex_pair b1 b2))
        as (gray & El & _ & Hg); try (apply hex_pair_byte; assumption).
      rewrite El. cbn [bind]. rewrite ReText.sub_from_skipn. cbn [skipn].
      cbn [List.length] in Hn.
      destruct (IH rest ltac:(lia)) as (out & Eo & Lo).
      rewrite Eo. cbn [bind]. eexists. split; [reflexivity|].
      rewrite length_app, (hex_text_length gray Hg), Lo.
      cbn [List.length]. lia.
    + destruct (IH s ltac:(lia)) as (out & Eo & Lo).
      rewrite Eo. cbn [bind]. eexists. split; [reflexivity|].
      cbn [List.length]. now rewrite Lo.
Qed.

(** X16: the rewriting of hexadecimal colours never fails and keeps the
    length of the document, whatever the document; so the grayscale
    conversion fails exactly when the rewriting of [rgb(...)] does, and
    with the same exception. *)
Theorem gray_hex_pass_total (svg : str) :
  (exists out, gray_hex_pass svg = Ok out
               /\ List.length out = List.length svg)
  /\ (forall e, _convert_svg_grayscale svg = Raise e
                <-> gray_rgb_pass svg = Raise e).
Proof.
  split.
  - apply (sub_hex_total (List.length svg)). lia.
  - intros e. unfold _convert_svg_grayscale.
    destruct (gray_rgb_pass svg) as [svg1|e1]; cbn [bind]; [|reflexivity].
    destruct (sub_hex_total (List.length svg1) svg1 ltac:(lia))
      as (out & Eo & _).
    unfold gray_hex_pass, Re.sub. rewrite Eo. split; discriminate.
Qed.

(** X17: a grey stays a grey of the same level or of the level below:
    with the three channels equal to a byte [v], the luminance is [v] or
    [v - 1]. *)
Theorem luminance_of_gray (v : Z) :
  (0 <= v <= 255)%Z ->
  luminance v v v = Ok v \/ luminance v v v = Ok (v - 1)%Z.
Proof.
  intros H. destruct (luminance_byte v v v H H H) as (gray & E & Hg & _).
  assert (X : exact_gray v v v = v).
  { unfold exact_gray. replace (299 * v + 587 * v + 114 * v)%Z
      with (v * 1000)%Z by lia.
    apply Z.quot_mul. lia. }
  rewrite X in Hg. rewrite E. destruct Hg as [-> | ->]; auto.
Qed.

Lemma luminance_of_gray_witness :
  luminance 1 1 1 = Ok 1%Z \/ luminance 1 1 1 = Ok (1 - 1)%Z.
Proof. apply (luminance_of_gray 1). lia. Defined.

(** ** The limits of the zoom *)

(** X18: at the limits the wheel stops: at zoom level 10 a turn upwards,
    and at zoom level 0.1 any turn that is not upwards, leaves the state
    as it is and asks for no rendering. *)
Theorem zoom_stops_at_limits (Doc : Type) (self : App Doc) (event : Event) :
  (zoom_level self = 10.0%float ->
   (num event =? 4)%Z || (delta event >? 0)%Z = true ->
   _on_zoom self event = (self, false))
  /\ (zoom_level self = 0.1%float ->
      (num event =? 4)%Z || (delta event >? 0)%Z = false ->
      _on_zoom self event = (self, false)).
Proof.
  unfold _on_zoom. split; intros Hz Hup; rewrite Hz, Hup;
    destruct (doc self); try reflexivity.
  destruct ((num event =? 5)%Z || (delta event <? 0)%Z); reflexivity.
Qed.

Lemma zoom_stops_at_limits_witness :
  _on_zoom (mkApp (Some tt) 0 1.0 10.0 false (Some (10, 10)%Z) None None
                  true false false false) (mkEvent 4 0)
  = (mkApp (Some tt) 0 1.0 10.0 false (Some (10, 10)%Z) None None
           true false false false, false).
Proof.
  exact (proj1 (zoom_stops_at_limits unit
                  (mkApp (Some tt) 0 1.0 10.0 false (Some (10, 10)%Z)
                         None None true false false false)
                  (mkEvent 4 0)) eq_refl eq_refl).
Defined.

(** ** Opening a file and the page field *)

Section Opening.

Variable Doc : Type.
Variable page_count : Doc -> Z.
Variable page_rect_width : Doc -> Z -> float.
Variable pixmap_size : Doc -> Z -> float -> Z * Z.

(** X19: the page field shows a number that [goto_page] accepts: read
    back as it was written by [_update_page_label], it leads to the page
    that is already shown.  (The page number is one that [str] prints and
    [int] reads, of at most 4300 digits.) *)
Theorem page_field_round_trip (self : App Doc) (d : Doc) :
  doc self = Some d ->
  page_in_range page_count self ->
  int_text_ok (page_index self + 1) = true ->
  goto_page page_count self (snd (_update_page_label page_count self))
  = (self, true, None).
Proof.
  unfold page_in_range, goto_page, _update_page_label. intros Hd.
  rewrite Hd. intros Hr Hok. cbn [snd]. rewrite py_int_dec, Hok.
  replace ((1 <=? page_index self + 1)%Z
           && (page_index self + 1 <=? page_count d)%Z) with true.
  2:{ symmetry. rewrite andb_true_iff, !Z.leb_le. lia. }
  replace (page_index self + 1 - 1)%Z with (page_index self) by lia.
  now destruct self.
Qed.

(** X20: opening a file that the engine reads as a document with pages
    puts the file at the head of the recent files, whether or not the
    first page can be rendered; when no error is shown the document is
    open at its first page, and when one is shown no document is open. *)
Theorem open_pdf_outcome (absolute : str -> str) (self : App Doc)
    (recent_files : list str) (path : str) (d : Doc)
    (stored : option float) (winfo_width winfo_height : Z) :
  path <> [] ->
  (0 < page_count d)%Z ->
  let '(self', recent_files', failed) :=
    open_pdf page_rect_width pixmap_size absolute self recent_files path
      (Some d) stored winfo_width winfo_height in
  hd_error recent_files' = Some (absolute path)
  /\ (failed = false ->
      doc self' = Some d /\ page_index self' = 0%Z
      /\ page_in_range page_count self')
  /\ (failed = true -> doc self' = None).
Proof.
  intros Hp Hc. unfold open_pdf.
  destruct path as [|c path]; [contradiction|].
  generalize (c :: path). clear c path Hp. intros path. cbv zeta.
  assert (Hr : hd_error (_add_to_recent absolute recent_files path)
               = Some (absolute path)) by reflexivity.
  unfold _render_current_page. cbn [doc set_page set_doc page_index auto_fit
                                     zoom_level].
  destruct (_ || _).
  - split; [exact Hr|]. split; [|discriminate]. intros _.
    unfold page_in_range. cbn. repeat split; lia.
  - match goal with
    | |- context [if auto_fit self then ?a else ?b] =>
        generalize (if auto_fit self then a else b)
    end.
    intros [[base|]|].
    + destruct (pixmap_size d 0 _) as [w h].
      split; [exact Hr|]. split; [|discriminate]. intros _.
      unfold page_in_range. cbn. repeat split; lia.
    + split; [exact Hr|]. split; [discriminate|reflexivity].
    + split; [exact Hr|]. split; [discriminate|reflexivity].
Qed.

End Opening.

Lemma page_field_round_trip_witness :
  goto_page (fun _ : unit => 3%Z) app_idle (lit "1") = (app_idle, true, None).
Proof.
  refine (page_field_round_trip unit (fun _ => 3%Z) app_idle tt eq_refl _
            eq_refl).
  cbn. lia.
Defined.

Lemma open_pdf_outcome_witness :
  hd_error (_add_to_recent (fun p => p) [] (lit "a.pdf")) = Some (lit "a.pdf").
Proof.
  refine (proj1 (open_pdf_outcome unit (fun _ => 1%Z) page_100 pixmap_10
                   (fun p => p) app_closed [] (lit "a.pdf") tt None 132 100
                   _ _)); [discriminate|reflexivity].
Defined.
